(** * canto-curses: the screen layout engine and the GUI render loop

    A shallow embedding of [canto_curses/screen.py] (class [Screen]) and
    [canto_curses/gui.py] (class [CantoCursesGui]).

    Window objects are identified by a natural number (their object
    identity); what a window answers when asked ([get_opt_name],
    [get_height], [get_width], [is_input]) is given by the heap [W].
    The attribute [pad] a window receives through [init], together with the
    coordinates captured by its refresh callback, is kept in a finite map
    from window identities to geometries. *)

From Stdlib Require Import ZArith Lia Ascii String.
From stdpp Require Import gmap strings list fin_maps.

Local Open Scope Z_scope.

(** ** Data model *)

Inductive Orientation := Horizontal | Vertical.

(** The second argument of [_subw_layout_size]: "width" or "height". *)
Inductive Dim := DWidth | DHeight.

(** What a window object answers (the Region capability contract). *)
Record Widget := {
  get_opt_name : string;
  get_height : Z -> Z;
  get_width : Z -> Z;
  is_input : bool
}.

(** [callbacks["get_opt"]], split by the type each call site consumes:
    [None] stands for Python's [None] (option unset). *)
Record Config := {
  get_opt_int : string -> option Z;
  get_opt_str : string -> option string;
  get_opt_bool : string -> bool
}.

(** A layout is a list whose items are windows or lists again
    ([hasattr(unit, "__iter__")] tells them apart). *)
Unset Elimination Schemes.
Inductive Layout :=
| Win (ci : nat)
| Sub (items : list Layout).
Set Elimination Schemes.

(** What [_subw_init] hands to a window: a pad of [height + 1] lines and
    [width] columns, and a refresh callback closed over the rectangle. *)
Record Geom := {
  g_top : Z;
  g_left : Z;
  g_height : Z;
  g_width : Z
}.

(** [pad.getmaxyx()] of the pad made by [curses.newpad(height + 1, width)]. *)
Definition getmaxyx (g : Geom) : Z * Z := (g_height g + 1, g_width g).

(** [curses.newpad] refuses a pad without lines or without columns. *)
Definition newpad_ok (nlines ncols : Z) : bool := (0 <? nlines) && (0 <? ncols).

(** Python's [sum] and [max] on lists of integers; [max] of the empty list
    raises. *)
Definition py_sum (l : list Z) : Z := foldr Z.add 0 l.

Definition py_max (l : list Z) : option Z :=
  match l with
  | [] => None
  | x :: tl => Some (foldr Z.max x tl)
  end.

Fixpoint immediates_from (i : nat) (layout : list Layout) : list (nat * nat) :=
  match layout with
  | [] => []
  | Win ci :: tl => (i, ci) :: immediates_from (S i) tl
  | Sub _ :: tl => immediates_from (S i) tl
  end.

Fixpoint cmplx_count (layout : list Layout) : nat :=
  match layout with
  | [] => O
  | Win _ :: tl => cmplx_count tl
  | Sub _ :: tl => S (cmplx_count tl)
  end.

(** The window identities below a layout item. *)
Fixpoint leaves (n : Layout) : gset nat :=
  match n with
  | Win ci => {[ ci ]}
  | Sub items => foldr (fun x acc => leaves x ∪ acc) ∅ items
  end.

Definition extent (o : Orientation) (height width : Z) : Z :=
  match o with Horizontal => width | Vertical => height end.

Section Engine.

Variable W : nat -> Widget.
Variable cfg : Config.

(** [_subw_size_height] and [_subw_size_width]: the minimum of the size the
    layout can give, the configured maximum (when set and not zero) and the
    size the window asks for. *)
Definition _subw_size_height (ci : nat) (height : Z) : Z :=
  let optname := get_opt_name (W ci) in
  let cfg_height :=
    match get_opt_int cfg (optname +:+ ".maxheight") with
    | None => height
    | Some c => if c =? 0 then height else c
    end in
  let req_height := get_height (W ci) height in
  Z.min (Z.min height cfg_height) req_height.

Definition _subw_size_width (ci : nat) (width : Z) : Z :=
  let optname := get_opt_name (W ci) in
  let cfg_width :=
    match get_opt_int cfg (optname +:+ ".maxwidth") with
    | None => width
    | Some c => if c =? 0 then width else c
    end in
  let req_width := get_width (W ci) width in
  Z.min (Z.min width cfg_width) req_width.

(** [_subw_init]: makes the pad and initialises the window with it. *)
Definition _subw_init (ci : nat) (top left height width : Z)
    (st : gmap nat Geom) : option (gmap nat Geom) :=
  if newpad_ok (height + 1) width
  then Some (<[ ci := {| g_top := top; g_left := left;
                         g_height := height; g_width := width |} ]> st)
  else None.

(** [_subw_layout_size], on one item: a window without a pad raises. *)
Fixpoint layout_size_item (st : gmap nat Geom) (dim : Dim) (x : Layout)
    : option Z :=
  match x with
  | Win ci =>
      match st !! ci with
      | Some g =>
          Some (match dim with
                | DWidth => snd (getmaxyx g) - 1
                | DHeight => fst (getmaxyx g) - 1
                end)
      | None => None
      end
  | Sub items =>
      match (fix sizes_of (l : list Layout) : option (list Z) :=
               match l with
               | [] => Some []
               | y :: tl =>
                   match layout_size_item st dim y with
                   | Some s =>
                       match sizes_of tl with
                       | Some ss => Some (s :: ss)
                       | None => None
                       end
                   | None => None
                   end
               end) items with
      | Some sizes => py_max sizes
      | None => None
      end
  end.

Definition _subw_layout_size (st : gmap nat Geom) (layout : list Layout)
    (dim : Dim) : option Z :=
  layout_size_item st dim (Sub layout).

Definition size_along (o : Orientation) (ci : nat) (avail : Z) : Z :=
  match o with
  | Horizontal => _subw_size_width ci avail
  | Vertical => _subw_size_height ci avail
  end.

(** First loop of [_subw]: the immediates take their sizes.  [units] is at
    least one at every division: it starts at [len(layout)] and drops by
    one per immediate. *)
Fixpoint size_immediates (o : Orientation) (ext : Z)
    (imms : list (nat * nat)) (used units : Z) (sizes : list Z)
    : Z * list Z :=
  match imms with
  | [] => (used, sizes)
  | (i, unit) :: tl =>
      let size := size_along o unit ((ext - used) / units) in
      size_immediates o ext tl (used + size) (units - 1) (<[ i := size ]> sizes)
  end.

(** Last loop of [_subw]: the immediates are initialised. *)
Fixpoint init_immediates (o : Orientation) (top left height width : Z)
    (sizes : list Z) (imms : list (nat * nat)) (st : gmap nat Geom)
    : option (gmap nat Geom) :=
  match imms with
  | [] => Some st
  | (i, ci) :: tl =>
      let offset := py_sum (take i sizes) in
      let size := default 0 (sizes !! i) in
      match (match o with
             | Horizontal => _subw_init ci top (left + offset) height size st
             | Vertical => _subw_init ci (top + offset) left size width st
             end) with
      | Some st' => init_immediates o top left height width sizes tl st'
      | None => None
      end
  end.

(** Second loop of [_subw]: the sub-layouts, each laid out by the recursive
    call [rec] and then measured. *)
Section Cmplx.

Variable rec : Layout -> Z -> Z -> Z -> Z -> Orientation -> gmap nat Geom ->
               option (gmap nat Geom * list Z).
Variables (top left height width : Z) (o : Orientation).

Fixpoint cmplx_loop (l : list Layout) (i : nat)
    (used units : Z) (sizes : list Z) (st : gmap nat Geom)
    : option (Z * list Z * gmap nat Geom) :=
  match l with
  | [] => Some (used, sizes, st)
  | Win _ :: tl => cmplx_loop tl (S i) used units sizes st
  | (Sub _ as unit) :: tl =>
      let offset := py_sum (take i sizes) in
      match o with
      | Horizontal =>
          let available := (width - used) / units in
          match rec unit top (left + offset) height available Vertical st with
          | Some (st1, _) =>
              match layout_size_item st1 DWidth unit with
              | Some sz =>
                  cmplx_loop tl (S i) (used + sz) (units - 1)
                             (<[ i := sz ]> sizes) st1
              | None => None
              end
          | None => None
          end
      | Vertical =>
          let available := (height - used) / units in
          match rec unit (top + offset) left available width Horizontal st with
          | Some (st1, _) =>
              match layout_size_item st1 DHeight unit with
              | Some sz =>
                  cmplx_loop tl (S i) (used + sz) (units - 1)
                             (<[ i := sz ]> sizes) st1
              | None => None
              end
          | None => None
          end
      end
  end.

End Cmplx.

(** [_subw] on the list held by a [Sub] item.  Besides the windows'
    geometries the model returns the local list [sizes] as it stands when
    the function returns. *)
Fixpoint subw_item (n : Layout) (top left height width : Z)
    (o : Orientation) (st : gmap nat Geom) {struct n}
    : option (gmap nat Geom * list Z) :=
  match n with
  | Win _ => None
  | Sub layout =>
      let imms := immediates_from 0 layout in
      let '(used, sizes) :=
        size_immediates o (extent o height width) imms 0
                        (Z.of_nat (length layout))
                        (replicate (length layout) 0) in
      match cmplx_loop subw_item top left height width o layout 0%nat used
                       (Z.of_nat (cmplx_count layout)) sizes st with
      | Some (_, sizes', st') =>
          match init_immediates o top left height width sizes' imms st' with
          | Some st'' => Some (st'', sizes')
          | None => None
          end
      | None => None
      end
  end.

Definition _subw (layout : list Layout) (top left height width : Z)
    (o : Orientation) (st : gmap nat Geom)
    : option (gmap nat Geom * list Z) :=
  subw_item (Sub layout) top left height width o st.

End Engine.

(** ** The screen *)

(** Calls that reach the terminal or a window's drawing code, in the order
    they are made. *)
Inductive Call :=
| CEndwin
| CStdscrRefresh
| CSetup
| CWinRefresh (ci : nat)
| CWinRedraw (ci : nat)
| CDoupdate.

Record Screen := {
  layout : string;
  windows : list nat;
  floats : list nat;
  height : Z;
  width : Z;
  focused : option nat;
  input_box : option nat;
  pads : gmap nat Geom;
  (** what [stdscr.getmaxyx()] answers now *)
  stdscr_maxyx : Z * Z;
  calls : list Call
}.

Definition set_windows (ws fs : list nat) (s : Screen) : Screen :=
  {| layout := layout s; windows := ws; floats := fs;
     height := height s; width := width s; focused := focused s;
     input_box := input_box s; pads := pads s;
     stdscr_maxyx := stdscr_maxyx s; calls := calls s |}.

Definition set_size (h w : Z) (s : Screen) : Screen :=
  {| layout := layout s; windows := windows s; floats := floats s;
     height := h; width := w; focused := focused s;
     input_box := input_box s; pads := pads s;
     stdscr_maxyx := stdscr_maxyx s; calls := calls s |}.

Definition set_focused (f : option nat) (s : Screen) : Screen :=
  {| layout := layout s; windows := windows s; floats := floats s;
     height := height s; width := width s; focused := f;
     input_box := input_box s; pads := pads s;
     stdscr_maxyx := stdscr_maxyx s; calls := calls s |}.

Definition set_input_box (b : option nat) (s : Screen) : Screen :=
  {| layout := layout s; windows := windows s; floats := floats s;
     height := height s; width := width s; focused := focused s;
     input_box := b; pads := pads s;
     stdscr_maxyx := stdscr_maxyx s; calls := calls s |}.

Definition set_pads (st : gmap nat Geom) (s : Screen) : Screen :=
  {| layout := layout s; windows := windows s; floats := floats s;
     height := height s; width := width s; focused := focused s;
     input_box := input_box s; pads := st;
     stdscr_maxyx := stdscr_maxyx s; calls := calls s |}.

Definition add_calls (cs : list Call) (s : Screen) : Screen :=
  {| layout := layout s; windows := windows s; floats := floats s;
     height := height s; width := width s; focused := focused s;
     input_box := input_box s; pads := pads s;
     stdscr_maxyx := stdscr_maxyx s; calls := calls s ++ cs |}.

(** [l[idx]] for a Python list: negative indices count from the end. *)
Definition py_index {A} (l : list A) (idx : Z) : option A :=
  let n := Z.of_nat (length l) in
  if (0 <=? idx) && (idx <? n) then l !! Z.to_nat idx
  else if (- n <=? idx) && (idx <? 0) then l !! Z.to_nat (n + idx)
  else None.

(** [s.startswith(p)] and [s.endswith(p)]. *)
Definition startswith (p s : string) : bool := String.prefix p s.

Definition endswith (p s : string) : bool :=
  let n := String.length s in
  let m := String.length p in
  if (m <=? n)%nat then String.eqb (String.substring (n - m) m s) p else false.

Section ScreenOps.

Variable W : nat -> Widget.
Variable cfg : Config.

(** The dictionary [aligns] of [fill_layout] as it is created. *)
Definition aligns0 : gmap string (list Layout) :=
  <[ "top" := [] ]> (<[ "bottom" := [] ]> (<[ "left" := [] ]>
    (<[ "right" := [] ]> (<[ "neutral" := [] ]> ∅)))).

(** The loop of [fill_layout] that separates windows by alignment;
    [aligns[align]] raises on any other key. *)
Fixpoint fill_aligns (ws : list nat) (aligns : gmap string (list Layout))
    : option (gmap string (list Layout)) :=
  match ws with
  | [] => Some aligns
  | w :: tl =>
      match get_opt_str cfg (get_opt_name (W w) +:+ ".align") with
      | Some align =>
          match aligns !! align with
          | Some l =>
              let item :=
                if String.eqb (get_opt_name (W w)) "taglist"
                then Sub [Sub [Win w]] else Win w in
              fill_aligns tl (<[ align := l ++ [item] ]> aligns)
          | None => None
          end
      | None => None
      end
  end.

(** [fill_layout]: the input box found among the windows, and the layout. *)
Definition fill_layout (lay : string) (ws : list nat)
    : option (option nat * list Layout) :=
  let inputs := filter (fun w => is_input (W w) = true) ws in
  let ib := head inputs in
  if String.eqb lay "hstack" then Some (ib, Win <$> ws)
  else if String.eqb lay "vstack" then Some (ib, [Sub (Win <$> ws)])
  else
    match fill_aligns ws aligns0 with
    | Some aligns =>
        let get k := default [] (aligns !! k) in
        let horizontal := get "left" ++ get "neutral" ++ get "right" in
        Some (ib, get "top" ++ [Sub horizontal] ++ get "bottom")
    | None => None
    end.

(** [_focus]: focus the idx-th window of the focus order. *)
Definition focus_order (s : Screen) : list nat :=
  reverse (windows s ++ floats s).

Definition _focus (idx : Z) (s : Screen) : Screen :=
  let l := Z.of_nat (length (focus_order s)) in
  if (-1 * l <? idx) && (idx <? l)
  then set_focused (py_index (focus_order s) idx) s
  else s.

(** The geometry given to one floating window on a screen of the given
    size, and the loop over the floats in [subwindows]. *)
Definition float_geom (f : nat) (sh sw : Z) : option Geom :=
  match get_opt_str cfg (get_opt_name (W f) +:+ ".align") with
  | Some align =>
      let h := _subw_size_height W cfg f sh in
      let w := _subw_size_width W cfg f sw in
      let top := if startswith "bottom" align then sh - h else 0 in
      let left := if endswith "right" align then sw - w else 0 in
      Some {| g_top := top; g_left := left; g_height := h; g_width := w |}
  | None => None
  end.

Fixpoint init_floats (fs : list nat) (sh sw : Z) (st : gmap nat Geom)
    : option (gmap nat Geom) :=
  match fs with
  | [] => Some st
  | f :: tl =>
      match float_geom f sh sw with
      | Some g =>
          match _subw_init f (g_top g) (g_left g) (g_height g) (g_width g) st with
          | Some st' => init_floats tl sh sw st'
          | None => None
          end
      | None => None
      end
  end.

(** [subwindows]: the top level window generator. *)
Definition subwindows (s : Screen) : option Screen :=
  let s0 := set_focused None s in
  match fill_layout (layout s0) (windows s0) with
  | Some (ib, l) =>
      let s1 := set_input_box ib s0 in
      match _subw W cfg l 0 0 (height s1) (width s1) Vertical (pads s1) with
      | Some (st, _) =>
          match init_floats (floats s1) (height s1) (width s1) st with
          | Some st' => Some (_focus 0 (set_pads st' s1))
          | None => None
          end
      | None => None
      end
  | None => None
  end.

(** [refresh] and [redraw]: every window in order, then [doupdate]. *)
Definition refresh (s : Screen) : Screen :=
  add_calls ((CWinRefresh <$> (windows s ++ floats s)) ++ [CDoupdate]) s.

Definition redraw (s : Screen) : Screen :=
  add_calls ((CWinRedraw <$> (windows s ++ floats s)) ++ [CDoupdate]) s.

(** [curses_setup], on a terminal that accepts the mode calls: the screen
    size is read again. *)
Definition curses_setup (s : Screen) : Screen :=
  add_calls [CSetup] (set_size (fst (stdscr_maxyx s)) (snd (stdscr_maxyx s)) s).

(** [_resize]: the typical curses resize, endwin and re-setup. *)
Definition _resize (s : Screen) : option Screen :=
  let s1 := add_calls [CEndwin; CStdscrRefresh] s in
  match subwindows (curses_setup s1) with
  | Some s2 => Some (refresh s2)
  | None => None
  end.

(** [die_callback]: remove a window, regenerate the layout. *)
Definition die_callback (window : nat) (s : Screen) : option Screen :=
  let ws := filter (fun w => w <> window) (windows s) in
  let fs := filter (fun w => w <> window) (floats s) in
  match subwindows (set_windows ws fs s) with
  | Some s1 =>
      let s2 := if decide (focused s1 = Some window) then _focus 0 s1 else s1 in
      Some (refresh s2)
  | None => None
  end.

(** [add_window_callback]: [ci] is the object [cls()] has just made. *)
Definition add_window_callback (ci : nat) (s : Screen) : option Screen :=
  let optname := get_opt_name (W ci) in
  let flt := get_opt_bool cfg (optname +:+ ".float") in
  let s0 := if flt then set_windows (windows s) (floats s ++ [ci]) s
            else set_windows (windows s ++ [ci]) (floats s) s in
  match subwindows s0 with
  | Some s1 => Some (refresh (_focus 0 s1))
  | None => None
  end.

End ScreenOps.

(** [optint]: optional integer argument; [first_term] is
    [CommandHandler._first_term] and [py_int] the builtin [int] on
    strings, [None] when it raises. *)
Section Optint.

Variable first_term : string -> string * string.
Variable py_int : string -> option Z.

Definition optint (args : string) : bool * option Z * option string :=
  if String.eqb args "" then (true, Some 0, Some ""%string)
  else
    let '(t, r) := first_term args in
    match py_int t with
    | Some t' => (true, Some t', Some r)
    | None => (false, None, None)
    end.

End Optint.

(** ** The GUI object and its render thread *)

(** The three variables of the shared store the render thread consumes. *)
Inductive Var := needs_resize | needs_refresh | needs_redraw.

Record Vars := {
  v_resize : bool;
  v_refresh : bool;
  v_redraw : bool
}.

Definition get_var (k : Var) (vs : Vars) : bool :=
  match k with
  | needs_resize => v_resize vs
  | needs_refresh => v_refresh vs
  | needs_redraw => v_redraw vs
  end.

Definition set_var (k : Var) (b : bool) (vs : Vars) : Vars :=
  match k with
  | needs_resize =>
      {| v_resize := b; v_refresh := v_refresh vs; v_redraw := v_redraw vs |}
  | needs_refresh =>
      {| v_resize := v_resize vs; v_refresh := b; v_redraw := v_redraw vs |}
  | needs_redraw =>
      {| v_resize := v_resize vs; v_refresh := v_refresh vs; v_redraw := b |}
  end.

(** What the GUI object does, in order. *)
Inductive Event :=
| EAcquireWrite
| EReleaseWrite
| ESync
| EResize
| ERefresh
| ERedraw
| ERemoveHandler
| EExit.

Record Gui := {
  alive : bool;
  sync_timer : Z;
  (** the event [do_gui] the render thread waits on *)
  do_gui : bool;
  vars : Vars;
  screen : Screen;
  events : list Event
}.

Definition with_timer (t : Z) (g : Gui) : Gui :=
  {| alive := alive g; sync_timer := t; do_gui := do_gui g; vars := vars g;
     screen := screen g; events := events g |}.

Definition with_do_gui (b : bool) (g : Gui) : Gui :=
  {| alive := alive g; sync_timer := sync_timer g; do_gui := b; vars := vars g;
     screen := screen g; events := events g |}.

Definition with_vars (vs : Vars) (g : Gui) : Gui :=
  {| alive := alive g; sync_timer := sync_timer g; do_gui := do_gui g;
     vars := vs; screen := screen g; events := events g |}.

Definition with_screen (s : Screen) (g : Gui) : Gui :=
  {| alive := alive g; sync_timer := sync_timer g; do_gui := do_gui g;
     vars := vars g; screen := s; events := events g |}.

Definition emit (e : Event) (g : Gui) : Gui :=
  {| alive := alive g; sync_timer := sync_timer g; do_gui := do_gui g;
     vars := vars g; screen := screen g; events := events g ++ [e] |}.

(** [release_gui], [tick] and [winch]. *)
Definition release_gui (g : Gui) : Gui := with_do_gui true g.

Definition tick (g : Gui) : Gui :=
  let g1 := with_timer (sync_timer g - 1) g in
  if sync_timer g1 <=? 0 then release_gui g1 else g1.

Definition winch (g : Gui) : Gui :=
  release_gui (with_vars (set_var needs_resize true (vars g)) g).

Section RenderThread.

Variable W : nat -> Widget.
Variable cfg : Config.

(** Modelled from the spec: [Screen.resize], which [run_gui] calls, is not
    among the sources.  The spec's resize step tears down and
    reinitialises the terminal geometry and regenerates the layout, which
    is what [_resize] (and the command [cmd_resize]) does. *)
Definition resize (s : Screen) : option Screen := _resize W cfg s.

Definition sync_step (g : Gui) : Gui :=
  if sync_timer g <=? 0 then with_timer 5 (emit ESync g) else g.

Definition resize_step (g : Gui) : option Gui :=
  if get_var needs_resize (vars g) then
    match resize (screen g) with
    | Some s' =>
        let g1 := emit EResize (with_screen s' g) in
        let g2 := with_vars (set_var needs_resize false (vars g1)) g1 in
        let g3 := with_vars (set_var needs_refresh false (vars g2)) g2 in
        Some (with_vars (set_var needs_redraw false (vars g3)) g3)
    | None => None
    end
  else Some g.

Definition refresh_step (g : Gui) : Gui :=
  if get_var needs_refresh (vars g) then
    let g1 := emit ERefresh (with_screen (refresh (screen g)) g) in
    with_vars (set_var needs_refresh false (vars g1)) g1
  else g.

Definition redraw_step (g : Gui) : Gui :=
  if get_var needs_redraw (vars g) then
    let g1 := emit ERedraw (with_screen (redraw (screen g)) g) in
    with_vars (set_var needs_redraw false (vars g1)) g1
  else g.

(** The part of the loop body of [run_gui] between [acquire_write] and
    [release_write]. *)
Definition run_gui_locked (g : Gui) : option Gui :=
  match resize_step (sync_step g) with
  | Some g1 => Some (redraw_step (refresh_step g1))
  | None => None
  end.

(** What the render thread does when it finds the GUI dead. *)
Definition run_gui_exit (g : Gui) : Gui :=
  emit EExit (with_screen (add_calls [CEndwin] (screen g))
                          (emit ERemoveHandler g)).

Inductive Outcome :=
| Looping (g : Gui)
| Exited (g : Gui).

(** One turn of the loop of [run_gui], from the moment [do_gui.wait()]
    returns. *)
Definition run_gui_pass (g : Gui) : option Outcome :=
  let g0 := with_do_gui false g in
  if negb (alive g0) then Some (Exited (run_gui_exit g0))
  else
    match run_gui_locked (emit EAcquireWrite g0) with
    | Some g1 => Some (Looping (emit EReleaseWrite g1))
    | None => None
    end.

End RenderThread.

(** ** Command splitting *)

Definition backslash : ascii :=
  Ascii.Ascii false false true true true false true false.

(** Modelled from the spec: [escsplit] comes from [canto_next.format] and
    is not among the sources.  It splits on every occurrence of the
    separator that is not escaped; a backslash escapes the character after
    it and is itself dropped.  [skip] counts the characters of a separator
    still to be passed over. *)
Fixpoint escsplit_from (delim : string) (s : string) (skip : nat)
    (acc : string) : list string :=
  match s with
  | EmptyString => [acc]
  | String c rest =>
      match skip with
      | S k => escsplit_from delim rest k acc
      | O =>
          if negb (String.eqb delim "") && String.prefix delim s
          then acc :: escsplit_from delim rest (String.length delim - 1) ""
          else if Ascii.eqb c backslash
          then match rest with
               | String c' _ => escsplit_from delim rest 1 (acc +:+ String c' "")
               | EmptyString => [acc]
               end
          else escsplit_from delim rest 0 (acc +:+ String c "")
      end
  end.

Definition escsplit (arg delim : string) : list string :=
  escsplit_from delim arg 0 "".

(** [str.lstrip()]: leading whitespace removed. *)
Definition is_space (c : ascii) : bool :=
  let n := Ascii.nat_of_ascii c in
  (n =? 32)%nat || ((9 <=? n)%nat && (n <=? 13)%nat).

Fixpoint lstrip (s : string) : string :=
  match s with
  | EmptyString => EmptyString
  | String c rest => if is_space c then lstrip rest else s
  end.

(** [cmdsplit]. *)
Definition cmdsplit (cmd : string) : list string :=
  lstrip <$> escsplit cmd " &".

(** ** The two threads and the lock *)

Inductive Tid := TCmd | TRender.

(** Where the thread that issues commands stands in [issue_cmd]. *)
Inductive CmdPc :=
| CmdIdle
| CmdExecuting
| CmdDead.

(** Where the render thread stands in [run_gui]. *)
Inductive RenderPc :=
| RWaiting
| RAwake
| RInPass
| RExited
| RDead.

(** Modelled from the spec: [sync_lock] comes from [canto_curses/locks.py],
    which is not among the sources.  The spec has it as the one read/write
    lock whose write holders are the command execution and the pass of the
    render thread.  The lock is given by its write holder; [acquire_write]
    returns only once nobody holds the lock ([None]: the caller goes on
    waiting), and [release_write] frees it. *)
Definition acquire_write (t : Tid) (writer : option Tid)
    : option (option Tid) :=
  match writer with
  | None => Some (Some t)
  | Some _ => None
  end.

Definition release_write (writer : option Tid) : option Tid := None.

Record Sys := {
  (** the write holder of [sync_lock] *)
  lock_writer : option Tid;
  cmd_pc : CmdPc;
  render_pc : RenderPc;
  gui : Gui
}.

Section Threads.

Variable W : nat -> Widget.
Variable cfg : Config.

(** [cmd_execute] is not among the sources: a command may change the GUI
    object in any way, or raise. *)
Variable cmd_execute : string -> Gui -> option Gui.

Inductive step : Sys -> Sys -> Prop :=
| step_cmd_acquire sy lk :
    cmd_pc sy = CmdIdle ->
    acquire_write TCmd (lock_writer sy) = Some lk ->
    step sy {| lock_writer := lk; cmd_pc := CmdExecuting;
               render_pc := render_pc sy; gui := gui sy |}
| step_cmd_release sy cmd g' :
    cmd_pc sy = CmdExecuting ->
    cmd_execute cmd (gui sy) = Some g' ->
    step sy {| lock_writer := release_write (lock_writer sy);
               cmd_pc := CmdIdle;
               render_pc := render_pc sy; gui := g' |}
| step_cmd_raise sy cmd :
    cmd_pc sy = CmdExecuting ->
    cmd_execute cmd (gui sy) = None ->
    step sy {| lock_writer := lock_writer sy; cmd_pc := CmdDead;
               render_pc := render_pc sy; gui := gui sy |}
| step_cmd_batch_done sy :
    cmd_pc sy = CmdIdle ->
    step sy {| lock_writer := lock_writer sy; cmd_pc := CmdIdle;
               render_pc := render_pc sy; gui := release_gui (gui sy) |}
| step_tick sy :
    step sy {| lock_writer := lock_writer sy; cmd_pc := cmd_pc sy;
               render_pc := render_pc sy; gui := tick (gui sy) |}
| step_winch sy :
    step sy {| lock_writer := lock_writer sy; cmd_pc := cmd_pc sy;
               render_pc := render_pc sy; gui := winch (gui sy) |}
| step_render_wake sy :
    render_pc sy = RWaiting ->
    do_gui (gui sy) = true ->
    step sy {| lock_writer := lock_writer sy; cmd_pc := cmd_pc sy;
               render_pc := RAwake; gui := with_do_gui false (gui sy) |}
| step_render_exit sy :
    render_pc sy = RAwake ->
    alive (gui sy) = false ->
    step sy {| lock_writer := lock_writer sy; cmd_pc := cmd_pc sy;
               render_pc := RExited; gui := run_gui_exit (gui sy) |}
| step_render_acquire sy lk :
    render_pc sy = RAwake ->
    alive (gui sy) = true ->
    acquire_write TRender (lock_writer sy) = Some lk ->
    step sy {| lock_writer := lk; cmd_pc := cmd_pc sy;
               render_pc := RInPass; gui := emit EAcquireWrite (gui sy) |}
| step_render_release sy g' :
    render_pc sy = RInPass ->
    run_gui_locked W cfg (gui sy) = Some g' ->
    step sy {| lock_writer := release_write (lock_writer sy);
               cmd_pc := cmd_pc sy;
               render_pc := RWaiting; gui := emit EReleaseWrite g' |}
| step_render_raise sy :
    render_pc sy = RInPass ->
    run_gui_locked W cfg (gui sy) = None ->
    step sy {| lock_writer := lock_writer sy; cmd_pc := cmd_pc sy;
               render_pc := RDead; gui := gui sy |}.

(** The states the two threads can reach from a start where neither is
    inside its locked part and the lock is free. *)
Definition initial (sy : Sys) : Prop :=
  lock_writer sy = None /\ cmd_pc sy = CmdIdle /\ render_pc sy = RWaiting.

Inductive reachable : Sys -> Prop :=
| reach_init sy : initial sy -> reachable sy
| reach_step sy sy' : reachable sy -> step sy sy' -> reachable sy'.

End Threads.

(** ** What the spec says, as definitions of their own *)

(** The size the spec gives an immediate window: the minimum of the
    configured maximum, the requested size and the share, a maximum that is
    zero or unset being no bound. *)
Definition spec_alloc (cfg_max : option Z) (requested share : Z) : Z :=
  match cfg_max with
  | Some c => if c =? 0 then Z.min requested share
              else Z.min c (Z.min requested share)
  | None => Z.min requested share
  end.

Definition cfg_max (W : nat -> Widget) (cfg : Config) (o : Orientation)
    (ci : nat) : option Z :=
  match o with
  | Horizontal => get_opt_int cfg (get_opt_name (W ci) +:+ ".maxwidth")
  | Vertical => get_opt_int cfg (get_opt_name (W ci) +:+ ".maxheight")
  end.

Definition requested (W : nat -> Widget) (o : Orientation) (ci : nat)
    (avail : Z) : Z :=
  match o with
  | Horizontal => get_width (W ci) avail
  | Vertical => get_height (W ci) avail
  end.

(** The space the first [k] immediates have taken, read off [sizes]. *)
Definition taken_by (sizes : list Z) (imms : list (nat * nat)) (k : nat) : Z :=
  py_sum ((fun p : nat * nat => default 0 (sizes !! fst p)) <$> take k imms).

(** ** Sample screens *)

Definition sample_W (ci : nat) : Widget :=
  match ci with
  | O => {| get_opt_name := "input"; get_height := fun _ => 1;
            get_width := fun a => a; is_input := true |}
  | 1%nat => {| get_opt_name := "taglist"; get_height := fun a => a;
                get_width := fun a => a; is_input := false |}
  | _ => {| get_opt_name := "infobox"; get_height := fun _ => 7;
            get_width := fun _ => 30; is_input := false |}
  end.

Definition sample_cfg : Config :=
  {| get_opt_int := fun k =>
       if String.eqb k "infobox.maxheight" then Some 5
       else if String.eqb k "infobox.maxwidth" then Some 20
       else None;
     get_opt_str := fun k =>
       if String.eqb k "input.align" then Some "bottom"%string
       else if String.eqb k "infobox.align" then Some "bottom-right"%string
       else Some "neutral"%string;
     get_opt_bool := fun k => String.eqb k "infobox.float" |}.

Definition sample_screen : Screen :=
  {| layout := "default"; windows := [0; 1]%nat; floats := [2%nat];
     height := 24; width := 80; focused := None; input_box := None;
     pads := ∅; stdscr_maxyx := (24, 80); calls := [] |}.

Definition one_window_screen : Screen :=
  {| layout := "default"; windows := [7%nat]; floats := [];
     height := 24; width := 80; focused := None; input_box := None;
     pads := ∅; stdscr_maxyx := (24, 80); calls := [] |}.

Definition sample_gui : Gui :=
  {| alive := true; sync_timer := 0; do_gui := true;
     vars := {| v_resize := true; v_refresh := true; v_redraw := true |};
     screen := sample_screen; events := [] |}.

Definition sample_sys : Sys :=
  {| lock_writer := None; cmd_pc := CmdIdle; render_pc := RWaiting;
     gui := sample_gui |}.

Definition sample_first_term (args : string) : string * string := (args, ""%string).

Definition sample_int (t : string) : option Z :=
  if String.eqb t "3" then Some 3 else None.

(** The steps a pass of the render thread takes, read off the state it
    starts in. *)
Definition steps_of (g : Gui) : list Event :=
  (if sync_timer g <=? 0 then [ESync] else []) ++
  (if get_var needs_resize (vars g) then [EResize]
   else (if get_var needs_refresh (vars g) then [ERefresh] else []) ++
        (if get_var needs_redraw (vars g) then [ERedraw] else [])).

Global Instance Event_eq_dec : EqDecision Event.
Proof. solve_decision. Defined.

Fixpoint has_backslash (s : string) : bool :=
  match s with
  | EmptyString => false
  | String c rest => Ascii.eqb c backslash || has_backslash rest
  end.

Definition no_leading_space (s : string) : Prop :=
  match s with
  | EmptyString => True
  | String c _ => is_space c = false
  end.

(** The state in which the command thread holds the lock. *)
Definition cmd_running_sys : Sys :=
  {| lock_writer := Some TCmd; cmd_pc := CmdExecuting;
     render_pc := render_pc sample_sys; gui := gui sample_sys |}.

(** What a pass makes of the sample GUI. *)
Definition sample_gui_after : Gui :=
  match run_gui_pass sample_W sample_cfg sample_gui with
  | Some (Looping g) => g
  | _ => sample_gui
  end.

(** What [subwindows] makes of the sample screen. *)
Definition sample_screen_after : Screen :=
  match subwindows sample_W sample_cfg sample_screen with
  | Some s => s
  | None => sample_screen
  end.

(** ** Notions used to reason about the layout engine *)

(** Induction on layouts, with the induction hypothesis on every item of a
    sub-layout. *)
Definition Layout_ind' (P : Layout -> Prop)
    (HWin : forall ci, P (Win ci))
    (HSub : forall items, Forall P items -> P (Sub items)) :
    forall n, P n :=
  fix go (n : Layout) : P n :=
    match n with
    | Win ci => HWin ci
    | Sub items =>
        HSub items
          ((fix all (l : list Layout) : Forall P l :=
              match l with
              | [] => List.Forall_nil P
              | x :: tl => List.Forall_cons P x tl (go x) (all tl)
              end) items)
    end.

(** The sizes of the items of a list, as [_subw_layout_size] collects
    them before taking their maximum. *)
Definition layout_sizes (st : gmap nat Geom) (dim : Dim)
    : list Layout -> option (list Z) :=
  fix sizes_of (l : list Layout) : option (list Z) :=
    match l with
    | [] => Some []
    | y :: tl =>
        match layout_size_item st dim y with
        | Some s =>
            match sizes_of tl with
            | Some ss => Some (s :: ss)
            | None => None
            end
        | None => None
        end
    end.

(** The windows among the items of a list, and the windows below its
    sub-layouts. *)
Fixpoint win_leaves (l : list Layout) : gset nat :=
  match l with
  | [] => ∅
  | Win ci :: tl => {[ ci ]} ∪ win_leaves tl
  | Sub _ :: tl => win_leaves tl
  end.

Fixpoint sub_leaves (l : list Layout) : gset nat :=
  match l with
  | [] => ∅
  | Win _ :: tl => sub_leaves tl
  | (Sub _ as x) :: tl => leaves x ∪ sub_leaves tl
  end.

(** A geometry that fits a rectangle of the given height and width and
    that [curses.newpad] accepts. *)
Definition fits (h w : Z) (g : Geom) : Prop :=
  0 <= g_height g <= h /\ 1 <= g_width g <= w.

(** A geometry that lies inside the rectangle at [top], [left] of the
    given height and width, and that [curses.newpad] accepts. *)
Definition inside (top left h w : Z) (g : Geom) : Prop :=
  top <= g_top g /\ g_top g + g_height g <= top + h /\
  left <= g_left g /\ g_left g + g_width g <= left + w /\
  0 <= g_height g /\ 1 <= g_width g.

(** Between two stores: the windows of [X] have a geometry inside the
    rectangle, the others have what they had. *)
Definition wrote (top left h w : Z) (X : gset nat)
    (st st' : gmap nat Geom) : Prop :=
  (forall ci, ci ∈ X ->
     exists g, st' !! ci = Some g /\ inside top left h w g) /\
  (forall ci, ci ∉ X -> st' !! ci = st !! ci).

(** The geometry the last loop of [_subw] gives the immediate at
    position [i]. *)
Definition imm_geom (o : Orientation) (top left h w : Z) (sizes : list Z)
    (i : nat) : Geom :=
  let offset := py_sum (take i sizes) in
  let size := default 0 (sizes !! i) in
  match o with
  | Horizontal => {| g_top := top; g_left := left + offset;
                     g_height := h; g_width := size |}
  | Vertical => {| g_top := top + offset; g_left := left;
                   g_height := size; g_width := w |}
  end.

(** Height and width of the pad the last loop of [_subw] makes for the
    immediate at position [i]. *)
Definition imm_dims (o : Orientation) (h w : Z) (sizes : list Z) (i : nat)
    : Z * Z :=
  match o with
  | Horizontal => (h, default 0 (sizes !! i))
  | Vertical => (default 0 (sizes !! i), w)
  end.

(** What the engine does on an item in a rectangle with sides that are
    not negative: its windows lie inside the rectangle, the others are
    left alone. *)
Definition child_ok
    (rec : Layout -> Z -> Z -> Z -> Z -> Orientation -> gmap nat Geom ->
           option (gmap nat Geom * list Z)) (c : Layout) : Prop :=
  forall top left h w o st st1 szs,
    0 <= h -> 0 <= w ->
    rec c top left h w o st = Some (st1, szs) ->
    wrote top left h w (leaves c) st st1.

(** A run of the engine on an item does not depend on the store it
    starts from: what it writes, [Wr], is laid over that store. *)
Definition child_uniform
    (rec : Layout -> Z -> Z -> Z -> Z -> Orientation -> gmap nat Geom ->
           option (gmap nat Geom * list Z)) (c : Layout) : Prop :=
  forall top left h w o st st1 szs,
    rec c top left h w o st = Some (st1, szs) ->
    exists Wr : gmap nat Geom,
      dom Wr = leaves c /\
      forall st0, rec c top left h w o st0 = Some (Wr ∪ st0, szs).

(** A tiled layout with two sub-layouts side by side above an input line. *)
Definition sample_layout : list Layout :=
  [Sub [Sub [Sub [Win 1%nat]]; Sub [Win 3%nat]]; Win 0%nat].

Definition sample_store : gmap nat Geom :=
  match _subw sample_W sample_cfg sample_layout 0 0 24 80 Vertical ∅ with
  | Some (st, _) => st
  | None => ∅
  end.

(** ** Notions used for the properties of the layout and of the focus *)

(** The alignments [fill_layout] keeps a list for. *)
Definition align_keys : list string :=
  ["top"; "bottom"; "left"; "right"; "neutral"]%string.

(** The align option of a window. *)
Definition align_of (W : nat -> Widget) (cfg : Config) (w : nat)
    : option string :=
  get_opt_str cfg (get_opt_name (W w) +:+ ".align").

(** The item [fill_layout] makes of a window: the taglist goes two lists
    deeper. *)
Definition item_of (W : nat -> Widget) (w : nat) : Layout :=
  if String.eqb (get_opt_name (W w)) "taglist"
  then Sub [Sub [Win w]] else Win w.

(** The items of the windows with a given alignment, in the order of the
    windows. *)
Definition items_of (W : nat -> Widget) (cfg : Config) (k : string)
    (ws : list nat) : list Layout :=
  item_of W <$> filter (fun w => align_of W cfg w = Some k) ws.

(** A screen whose tiled windows are all gone. *)
Definition empty_screen : Screen :=
  {| layout := "default"; windows := []; floats := [2%nat];
     height := 24; width := 80; focused := None; input_box := None;
     pads := ∅; stdscr_maxyx := (24, 80); calls := [] |}.

(** The sample screen after its input line has died, and after another
    info box has been added. *)
Definition tiled_one_gone : Screen :=
  match die_callback sample_W sample_cfg 0%nat sample_screen with
  | Some s => s
  | None => sample_screen
  end.

Definition float_added : Screen :=
  match add_window_callback sample_W sample_cfg 5%nat sample_screen with
  | Some s => s
  | None => sample_screen
  end.

(** A window that takes whatever it is offered along the axis: no
    configured maximum, and a request that is never below the offer. *)
Definition greedy (W : nat -> Widget) (cfg : Config) (o : Orientation)
    (ci : nat) : Prop :=
  (cfg_max W cfg o ci = None \/ cfg_max W cfg o ci = Some 0) /\
  forall a, a <= requested W o ci a.

(** A column of three windows that take what they are offered. *)
Definition greedy_W (ci : nat) : Widget :=
  {| get_opt_name := "pane"; get_height := fun a => a;
     get_width := fun a => a; is_input := false |}.

Definition greedy_store : gmap nat Geom :=
  match _subw greedy_W sample_cfg (Win <$> [0; 1; 2]%nat) 0 0 10 80 Vertical ∅ with
  | Some (st, _) => st
  | None => ∅
  end.

(** The sample GUI after a window change signal. *)
Definition winch_gui_after : Gui :=
  match run_gui_pass sample_W sample_cfg (winch sample_gui) with
  | Some (Looping g) => g
  | _ => sample_gui
  end.

(** The sample system after a command has raised inside [issue_cmd]. *)
Definition cmd_dead_sys : Sys :=
  {| lock_writer := Some TCmd; cmd_pc := CmdDead;
     render_pc := render_pc sample_sys; gui := gui sample_sys |}.

(** A GUI over the screen without tiled windows, asked to resize, and the
    system in which the render thread has started its pass on it and the
    pass has raised. *)
Definition stuck_gui : Gui :=
  {| alive := true; sync_timer := 3; do_gui := true;
     vars := {| v_resize := true; v_refresh := false; v_redraw := false |};
     screen := empty_screen; events := [] |}.

Definition render_dead_sys : Sys :=
  {| lock_writer := Some TRender; cmd_pc := CmdIdle; render_pc := RDead;
     gui := emit EAcquireWrite (with_do_gui false stuck_gui) |}.

(** The same two systems one timer tick later. *)
Definition cmd_dead_later : Sys :=
  {| lock_writer := lock_writer cmd_dead_sys; cmd_pc := cmd_pc cmd_dead_sys;
     render_pc := render_pc cmd_dead_sys; gui := tick (gui cmd_dead_sys) |}.

Definition render_dead_later : Sys :=
  {| lock_writer := lock_writer render_dead_sys;
     cmd_pc := cmd_pc render_dead_sys;
     render_pc := render_pc render_dead_sys;
     gui := tick (gui render_dead_sys) |}.

(** A thread that is inside its locked part, or has died there, is the
    holder of the lock. *)
Definition held_inv (sy : Sys) : Prop :=
  (cmd_pc sy = CmdExecuting \/ cmd_pc sy = CmdDead ->
     lock_writer sy = Some TCmd) /\
  (render_pc sy = RInPass \/ render_pc sy = RDead ->
     lock_writer sy = Some TRender).

(** ** The input thread *)

(** What [input_thread] puts on the user queue: [("KEY", r)], where [r] is
    a one-character string for a code below 256 and the code itself
    otherwise. *)
Inductive Key :=
| KChr (c : ascii)
| KCode (r : Z).

(** Python's [chr]: a [ValueError] outside [range(256)]. *)
Definition chr (r : Z) : option ascii :=
  if (0 <=? r) && (r <? 256) then Some (Ascii.ascii_of_N (Z.to_N r))
  else None.

(** What the input thread does with [input_lock], in order. *)
Inductive LockEvent :=
| LAcquire
| LRelease
| LSleep.

(** The part of the screen object the input thread and [input_callback]
    work on.  The input box is a widget of [canto_curses/text.py], which is
    not among the sources: its state is any type [Box]. *)
Record Input (Box : Type) := {
  sub_edit : bool;
  (** the event [input_done] *)
  input_done : bool;
  in_vars : Vars;
  (** [self.input_box]: [None] when no window is an input *)
  in_box : option Box;
  user_queue : list Key;
  lock_trace : list LockEvent
}.

Arguments sub_edit {Box} _.
Arguments input_done {Box} _.
Arguments in_vars {Box} _.
Arguments in_box {Box} _.
Arguments user_queue {Box} _.
Arguments lock_trace {Box} _.

Section InputThread.

Variable Box : Type.

(** The methods of the input box that the screen calls: [edit(prompt)],
    [addkey(r)] with its return code, the attribute [result], and
    [reset()]. *)
Variable edit : string -> Box -> Box.
Variable addkey : Z -> Box -> Box * Z.
Variable result : Box -> string.
Variable reset : Box -> Box.

Definition put (k : Key) (i : Input Box) : Input Box :=
  {| sub_edit := sub_edit i; input_done := input_done i;
     in_vars := in_vars i; in_box := in_box i;
     user_queue := user_queue i ++ [k]; lock_trace := lock_trace i |}.

Definition lock_does (es : list LockEvent) (i : Input Box) : Input Box :=
  {| sub_edit := sub_edit i; input_done := input_done i;
     in_vars := in_vars i; in_box := in_box i;
     user_queue := user_queue i; lock_trace := lock_trace i ++ es |}.

(** One turn of the loop of [input_thread], [r] being what [getch]
    returned.  [None]: the turn raises. *)
Definition input_thread_key (r : Z) (i : Input Box) : option (Input Box) :=
  if r =? -1 then Some (lock_does [LRelease; LSleep; LAcquire] i)
  else if sub_edit i then
    match in_box i with
    | Some b =>
        let '(b', rc) := addkey r b in
        if rc =? 0 then
          Some {| sub_edit := false; input_done := true;
                  in_vars := set_var needs_redraw true (in_vars i);
                  in_box := Some b'; user_queue := user_queue i;
                  lock_trace := lock_trace i |}
        else
          Some {| sub_edit := sub_edit i; input_done := input_done i;
                  in_vars := in_vars i; in_box := Some b';
                  user_queue := user_queue i; lock_trace := lock_trace i |}
    | None => None
    end
  else if r <? 256 then
    match chr r with
    | Some c => Some (put (KChr c) i)
    | None => None
    end
  else Some (put (KCode r) i).

(** The loop of [input_thread] over the values [getch] returns. *)
Fixpoint input_thread_loop (rs : list Z) (i : Input Box)
    : option (Input Box) :=
  match rs with
  | [] => Some i
  | r :: rs' =>
      match input_thread_key r i with
      | Some i' => input_thread_loop rs' i'
      | None => None
      end
  end.

Definition input_thread (rs : list Z) (i : Input Box) : option (Input Box) :=
  input_thread_loop rs (lock_does [LAcquire] i).

(** [input_callback] up to its wait on [input_done], and from there on. *)
Definition input_callback_setup (prompt : string) (i : Input Box)
    : option (Input Box) :=
  match in_box i with
  | Some b =>
      Some {| sub_edit := true; input_done := false; in_vars := in_vars i;
              in_box := Some (edit prompt b); user_queue := user_queue i;
              lock_trace := lock_trace i |}
  | None => None
  end.

Definition input_callback_return (i : Input Box)
    : option (string * Input Box) :=
  match in_box i with
  | Some b =>
      Some (result b,
            {| sub_edit := sub_edit i; input_done := input_done i;
               in_vars := in_vars i; in_box := Some (reset b);
               user_queue := user_queue i; lock_trace := lock_trace i |})
  | None => None
  end.

(** The box after the keys [ks], and whether every one of them left the
    edit unfinished. *)
Fixpoint feed (ks : list Z) (b : Box) : Box :=
  match ks with
  | [] => b
  | k :: ks' => feed ks' (fst (addkey k b))
  end.

Fixpoint unfinished (ks : list Z) (b : Box) : bool :=
  match ks with
  | [] => true
  | k :: ks' => negb (snd (addkey k b) =? 0) && unfinished ks' (fst (addkey k b))
  end.

End InputThread.

(** The queue entry of a key code that [getch] can return. *)
Definition key_of (r : Z) : Key :=
  if r <? 256 then KChr (Ascii.ascii_of_N (Z.to_N r)) else KCode r.

(** A line editor as sample input box: it collects the keys up to a
    newline. *)
Definition line_edit (prompt : string) (b : list Z) : list Z := [].

Definition line_addkey (r : Z) (b : list Z) : list Z * Z :=
  if r =? 10 then (b, 0) else (b ++ [r], 1).

Definition line_result (b : list Z) : string :=
  string_of_list_ascii (Ascii.ascii_of_N <$> (Z.to_N <$> b)).

Definition line_reset (b : list Z) : list Z := [].

Definition sample_input : Input (list Z) :=
  {| sub_edit := false; input_done := false;
     in_vars := {| v_resize := false; v_refresh := false; v_redraw := false |};
     in_box := Some []; user_queue := []; lock_trace := [] |}.

(** The sample input after the thread has read a key and an empty read. *)
Definition sample_input_after : Input (list Z) :=
  match input_thread (list Z) line_addkey [104; -1] sample_input with
  | Some i => i
  | None => sample_input
  end.

(** Two sub-layouts of one pane each, side by side in a rectangle of 81
    columns, and the pads [_subw] gives them. *)
Definition row_layout : list Layout := [Sub [Win 0%nat]; Sub [Win 1%nat]].

Definition row_store : gmap nat Geom :=
  match _subw greedy_W sample_cfg row_layout 0 0 10 81 Horizontal ∅ with
  | Some (st, _) => st
  | None => ∅
  end.

(** ** Focus *)

Lemma py_index_0 {A} (l : list A) : py_index l 0 = head l.
Proof.
  unfold py_index. destruct l as [|x l]; [reflexivity|].
  cbn [length]. replace (0 <? Z.of_nat (S (length l))) with true
    by (symmetry; apply Z.ltb_lt; lia).
  reflexivity.
Qed.

Lemma focus_order_focus idx s : focus_order (_focus idx s) = focus_order s.
Proof. unfold _focus. destruct (_ && _); reflexivity. Qed.

(** C2, as stated, fails: with one window the index [-1] lies in
    [-L..L-1], the focus order has an element there, and [_focus] leaves the
    focus as it was. *)
Lemma focus_minus_length_unchanged :
  - Z.of_nat (length (focus_order one_window_screen)) <= -1
    <= Z.of_nat (length (focus_order one_window_screen)) - 1 /\
  py_index (focus_order one_window_screen) (-1) = Some 7%nat /\
  focused (_focus (-1) one_window_screen) = None.
Proof. vm_compute. repeat split; congruence. Qed.

(** C2, amended: for a focus order of length L, [_focus idx] makes the
    idx-th element of the order (negative from the end) the focused window
    exactly when -L < idx < L; for any other index the screen, and so the
    focused window, is left as it was, and the call returns. *)
Theorem focus_index_resolution (s : Screen) (idx : Z) :
  let L := Z.of_nat (length (focus_order s)) in
  (- L < idx < L ->
     is_Some (py_index (focus_order s) idx) /\
     focused (_focus idx s) = py_index (focus_order s) idx) /\
  (~ (- L < idx < L) -> _focus idx s = s).
Proof.
  cbv zeta. unfold _focus. split.
  - intros [H1 H2].
    replace ((-1 * Z.of_nat (length (focus_order s)) <? idx)
             && (idx <? Z.of_nat (length (focus_order s)))) with true
      by (symmetry; apply andb_true_iff; split; apply Z.ltb_lt; lia).
    split; [|reflexivity].
    unfold py_index. destruct (Z.leb_spec 0 idx) as [Hp|Hn].
    + replace (idx <? Z.of_nat (length (focus_order s))) with true
        by (symmetry; apply Z.ltb_lt; lia).
      cbn [andb]. apply lookup_lt_is_Some. lia.
    + cbn [andb].
      replace (- Z.of_nat (length (focus_order s)) <=? idx) with true
        by (symmetry; apply Z.leb_le; lia).
      replace (idx <? 0) with true by (symmetry; apply Z.ltb_lt; lia).
      cbn [andb]. apply lookup_lt_is_Some. lia.
  - intros Hn.
    destruct (Z.ltb_spec (-1 * Z.of_nat (length (focus_order s))) idx);
      destruct (Z.ltb_spec idx (Z.of_nat (length (focus_order s))));
      cbn [andb]; try reflexivity.
    exfalso. apply Hn. lia.
Qed.

(** ** The optional integer argument *)

(** C9: with no argument [optint] answers success with the value 0; when
    the first term is not an integer it answers failure with no value and
    no rest, and does not raise. *)
Theorem optint_default_and_failure
    (first_term : string -> string * string) (py_int : string -> option Z) :
  optint first_term py_int "" = (true, Some 0, Some ""%string) /\
  (forall args, args <> ""%string ->
     py_int (fst (first_term args)) = None ->
     optint first_term py_int args = (false, None, None)).
Proof.
  split; [reflexivity|].
  intros args Hne Hint. unfold optint.
  destruct (String.eqb_spec args "") as [->|_]; [congruence|].
  destruct (first_term args) as [t r]. cbn in Hint. rewrite Hint. reflexivity.
Qed.

Lemma optint_default_and_failure_sample :
  optint sample_first_term sample_int "" = (true, Some 0, Some ""%string) /\
  optint sample_first_term sample_int "x1" = (false, None, None).
Proof.
  destruct (optint_default_and_failure sample_first_term sample_int) as [H0 Hf].
  split; [exact H0|]. apply Hf; [discriminate|reflexivity].
Defined.

(** ** Command splitting *)

Lemma lstrip_no_leading_space s : no_leading_space (lstrip s).
Proof.
  induction s as [|c s IH]; cbn; [exact I|].
  destruct (is_space c) eqn:E; [exact IH|]. cbn. exact E.
Qed.

Lemma prefix_empty s : String.prefix "" s = true.
Proof. destruct s; reflexivity. Qed.

Lemma escsplit_from_cons_0 d c rest acc :
  escsplit_from d (String c rest) 0 acc =
  if negb (String.eqb d "") && String.prefix d (String c rest)
  then acc :: escsplit_from d rest (String.length d - 1) ""
  else if Ascii.eqb c backslash
       then match rest with
            | String c' _ => escsplit_from d rest 1 (acc +:+ String c' "")
            | EmptyString => [acc]
            end
       else escsplit_from d rest 0 (acc +:+ String c "").
Proof. reflexivity. Qed.

Lemma escsplit_from_cons_S d c rest k acc :
  escsplit_from d (String c rest) (S k) acc = escsplit_from d rest k acc.
Proof. reflexivity. Qed.

Lemma prefix_amp c rest :
  String.prefix " &" (String c rest) =
  if ascii_dec " " c then
    match rest with
    | String c2 _ => if ascii_dec "&" c2 then true else false
    | EmptyString => false
    end
  else false.
Proof.
  cbn [String.prefix]. destruct (ascii_dec " " c); [|reflexivity].
  destruct rest as [|c2 r]; [reflexivity|]. cbn [String.prefix].
  destruct (ascii_dec "&" c2); [apply prefix_empty|reflexivity].
Qed.

Lemma escsplit_from_app (b : string) :
  forall (a : string) (skip : nat) (acc : string),
    has_backslash a = false ->
    (skip <= String.length a)%nat ->
    escsplit_from " &" (a +:+ " &" +:+ b) skip acc =
    escsplit_from " &" a skip acc ++ escsplit_from " &" b 0 "".
Proof.
  induction a as [|c a IH]; intros skip acc Hb Hs.
  - cbn in Hs. assert (skip = 0%nat) as -> by lia.
    change ("" +:+ " &" +:+ b) with (String " " (String "&" b)).
    rewrite escsplit_from_cons_0, prefix_amp. reflexivity.
  - cbn [has_backslash] in Hb. apply orb_false_iff in Hb as [Hc Hb].
    change (String c a +:+ " &" +:+ b) with (String c (a +:+ " &" +:+ b)).
    destruct skip as [|k].
    + rewrite !escsplit_from_cons_0, !prefix_amp, Hc.
      change (String.eqb " &" "") with false. cbn [negb andb].
      destruct (ascii_dec " " c) as [<-|Hne].
      * destruct a as [|c2 a].
        -- change ("" +:+ " &" +:+ b) with (String " " (String "&" b)).
           cbn match. rewrite (IH 0%nat _ Hb); [reflexivity|cbn; lia].
        -- change (String c2 a +:+ " &" +:+ b)
             with (String c2 (a +:+ " &" +:+ b)).
           cbn match.
           destruct (ascii_dec "&" c2) as [<-|Hne2].
           ++ change (String.length " &" - 1)%nat with 1%nat.
              change (String "&" (a +:+ " &" +:+ b))
                with (String "&" a +:+ " &" +:+ b).
              rewrite (IH 1%nat ""%string Hb); [reflexivity|cbn; lia].
           ++ change (String c2 (a +:+ " &" +:+ b))
                with (String c2 a +:+ " &" +:+ b).
              rewrite (IH 0%nat _ Hb); [reflexivity|lia].
      * rewrite (IH 0%nat _ Hb); [reflexivity|lia].
    + rewrite !escsplit_from_cons_S. apply IH; [exact Hb|cbn in Hs; lia].
Qed.

(** C6: [cmdsplit] splits at every separator (a space followed by an
    ampersand) that is not escaped and strips the leading whitespace of
    each piece: "a & b & c" gives a, b, c; with the ampersand escaped,
    "a", space, backslash, "& b" gives the one piece "a & b". *)
Theorem cmdsplit_splits_and_strips :
  cmdsplit "a & b & c" = ["a"; "b"; "c"]%string /\
  cmdsplit ("a " +:+ String backslash "& b") = ["a & b"%string] /\
  (forall a b, has_backslash a = false ->
     cmdsplit (a +:+ " &" +:+ b) = cmdsplit a ++ cmdsplit b) /\
  (forall cmd piece, piece ∈ cmdsplit cmd -> no_leading_space piece).
Proof.
  split; [reflexivity|]. split; [reflexivity|]. split.
  - intros a b Hb. unfold cmdsplit, escsplit.
    rewrite escsplit_from_app by (try exact Hb; lia).
    apply fmap_app.
  - intros cmd piece Hin. unfold cmdsplit in Hin.
    apply list_elem_of_fmap in Hin as (raw & -> & _).
    apply lstrip_no_leading_space.
Qed.

(** ** The render thread *)

Lemma run_gui_locked_events W cfg g g1 :
  run_gui_locked W cfg g = Some g1 ->
  events g1 = events g ++ steps_of g /\
  sync_timer g1 = (if sync_timer g <=? 0 then 5 else sync_timer g) /\
  alive g1 = alive g /\ do_gui g1 = do_gui g /\
  vars g1 = {| v_resize := false; v_refresh := false; v_redraw := false |} /\
  (get_var needs_resize (vars g) = true ->
     exists s1, resize W cfg (screen g) = Some s1 /\ screen g1 = s1).
Proof.
  unfold run_gui_locked, resize_step, sync_step, refresh_step, redraw_step,
    steps_of.
  destruct g as [al tm dg [vr vf vd] sc ev]. cbn.
  destruct (tm <=? 0); cbn; destruct vr; cbn.
  1,3: destruct (resize W cfg sc) as [s1|]; [|discriminate]; cbn;
       intros [= <-]; cbn; rewrite <- ?app_assoc; repeat split; eauto.
  all: destruct vf, vd; cbn; intros [= <-]; cbn; rewrite <- ?app_assoc;
       rewrite ?app_nil_r; repeat split; discriminate.
Qed.

Lemma run_gui_pass_looping W cfg g g' :
  run_gui_pass W cfg g = Some (Looping g') ->
  exists g1, run_gui_locked W cfg (emit EAcquireWrite (with_do_gui false g)) = Some g1 /\
             g' = emit EReleaseWrite g1 /\ alive g = true.
Proof.
  unfold run_gui_pass. destruct g as [al tm dg vs sc ev]. cbn.
  destruct al; cbn; [|discriminate].
  destruct (run_gui_locked _ _ _) as [g1|]; [|discriminate].
  intros [= <-]. eauto.
Qed.

(** C3: a pass of the render thread takes its steps in the order sync,
    resize, refresh, redraw, each at most once and only when its countdown
    or flag asks for it; sync runs exactly when the countdown is at zero
    (or below) and sets it back; and a tick takes one from the countdown,
    sets the release signal when the countdown is then at zero (or below),
    and changes nothing else. *)
Theorem render_pass_order_and_tick (W : nat -> Widget) (cfg : Config) :
  (forall g g', run_gui_pass W cfg g = Some (Looping g') ->
     exists steps,
       events g' = events g ++ [EAcquireWrite] ++ steps ++ [EReleaseWrite] /\
       sublist steps [ESync; EResize; ERefresh; ERedraw] /\
       (ESync ∈ steps <-> sync_timer g <= 0) /\
       (EResize ∈ steps <-> get_var needs_resize (vars g) = true) /\
       (ERefresh ∈ steps <-> get_var needs_refresh (vars g) = true /\
                              get_var needs_resize (vars g) = false) /\
       (ERedraw ∈ steps <-> get_var needs_redraw (vars g) = true /\
                             get_var needs_resize (vars g) = false) /\
       sync_timer g' = (if sync_timer g <=? 0 then 5 else sync_timer g)) /\
  (forall g,
     sync_timer (tick g) = sync_timer g - 1 /\
     do_gui (tick g) = (do_gui g || (sync_timer g - 1 <=? 0)) /\
     alive (tick g) = alive g /\ vars (tick g) = vars g /\
     screen (tick g) = screen g /\ events (tick g) = events g).
Proof.
  split.
  - intros g g' Hp.
    apply run_gui_pass_looping in Hp as (g1 & Hl & -> & _).
    apply run_gui_locked_events in Hl as (Hev & Htm & _).
    exists (steps_of g). split.
    { cbn [events emit]. rewrite Hev. cbn [events emit with_do_gui].
      unfold steps_of. cbn [sync_timer vars emit with_do_gui].
      rewrite <- !app_assoc. reflexivity. }
    split; [|split; [|split; [|split; [|split]]]]; [..|exact Htm];
      unfold steps_of;
      destruct (Z.leb_spec (sync_timer g) 0);
      destruct (get_var needs_resize (vars g)),
               (get_var needs_refresh (vars g)),
               (get_var needs_redraw (vars g)); cbn [app];
      first [ by repeat constructor
            | split; intros Hx;
              [ try (split; reflexivity); try reflexivity; try lia;
                repeat (apply elem_of_cons in Hx as [Hx|Hx]; [discriminate Hx|]);
                try (by apply elem_of_nil in Hx);
                exfalso; set_solver
              | try (exfalso; lia); try (by destruct Hx); try discriminate;
                set_solver ] ].
  - intros g. unfold tick. destruct g as [al tm dg vs sc ev]. cbn.
    destruct (tm - 1 <=? 0); cbn; repeat split; try reflexivity;
      destruct dg; reflexivity.
Qed.

Lemma subwindows_inv W cfg s s' :
  subwindows W cfg s = Some s' ->
  exists ib l st sz st',
    fill_layout W cfg (layout s) (windows s) = Some (ib, l) /\
    _subw W cfg l 0 0 (height s) (width s) Vertical (pads s) = Some (st, sz) /\
    init_floats W cfg (floats s) (height s) (width s) st = Some st' /\
    s' = _focus 0 (set_pads st' (set_input_box ib (set_focused None s))).
Proof.
  unfold subwindows.
  destruct (fill_layout _ _ _ _) as [[ib l]|] eqn:E1; [|discriminate].
  destruct (_subw _ _ _ _ _ _ _ _ _) as [[st sz]|] eqn:E2; [|discriminate].
  destruct (init_floats _ _ _ _ _ _) as [st'|] eqn:E3; [|discriminate].
  intros Heq. injection Heq as <-.
  exists ib, l, st, sz, st'. repeat split; assumption.
Qed.

Lemma subwindows_frame W cfg s s' :
  subwindows W cfg s = Some s' ->
  layout s' = layout s /\ windows s' = windows s /\ floats s' = floats s /\
  height s' = height s /\ width s' = width s /\
  stdscr_maxyx s' = stdscr_maxyx s /\ calls s' = calls s.
Proof.
  intros H. apply subwindows_inv in H as (ib & l & st & sz & st' & _ & _ & _ & ->).
  unfold _focus. destruct (_ && _); cbn; repeat split.
Qed.



(** ** The two threads *)

Section Exclusion.

Variable W : nat -> Widget.
Variable cfg : Config.
Variable cmd_execute : string -> Gui -> option Gui.

(** Whoever is inside its locked part is the holder of the lock. *)
Definition lock_inv (sy : Sys) : Prop :=
  (cmd_pc sy = CmdExecuting -> lock_writer sy = Some TCmd) /\
  (render_pc sy = RInPass -> lock_writer sy = Some TRender).

Lemma lock_inv_initial sy : initial sy -> lock_inv sy.
Proof.
  intros (_ & Hc & Hr). split; intros H; congruence.
Qed.

Lemma lock_inv_step sy sy' :
  lock_inv sy -> step W cfg cmd_execute sy sy' -> lock_inv sy'.
Proof.
  intros [Hc Hr] Hstep.
  inversion Hstep as [sy0 lk Hpc0 Hacq| | | | | | | |sy0 lk Hpc0 Hal Hacq| |];
    subst; split; cbn; intros Hpc; try congruence; auto;
    unfold acquire_write, release_write in *.
  - destruct (lock_writer sy); congruence.
  - specialize (Hr Hpc). rewrite Hr in Hacq. discriminate.
  - specialize (Hr Hpc). specialize (Hc ltac:(assumption)). congruence.
  - specialize (Hc Hpc). rewrite Hc in Hacq. discriminate.
  - destruct (lock_writer sy); congruence.
  - specialize (Hc Hpc). specialize (Hr ltac:(assumption)). congruence.
Qed.

Lemma lock_inv_reachable sy :
  reachable W cfg cmd_execute sy -> lock_inv sy.
Proof.
  induction 1 as [sy Hi|sy sy' _ IH Hstep].
  - apply lock_inv_initial, Hi.
  - eapply lock_inv_step; eassumption.
Qed.

End Exclusion.

(** C5: in no state the two threads can reach is a command executing
    (between [acquire_write] and [release_write] in [issue_cmd]) while the
    render thread is inside its pass (between [acquire_write] and
    [release_write] in [run_gui]); whichever is inside holds the lock. *)
Theorem command_and_pass_exclusive (W : nat -> Widget) (cfg : Config)
    (cmd_execute : string -> Gui -> option Gui) (sy : Sys) :
  reachable W cfg cmd_execute sy ->
  ~ (cmd_pc sy = CmdExecuting /\ render_pc sy = RInPass) /\
  (cmd_pc sy = CmdExecuting -> lock_writer sy = Some TCmd) /\
  (render_pc sy = RInPass -> lock_writer sy = Some TRender).
Proof.
  intros Hr. apply lock_inv_reachable in Hr as [Hc Hp].
  split; [|split; assumption].
  intros [H1 H2]. specialize (Hc H1). specialize (Hp H2). congruence.
Qed.

Lemma command_and_pass_exclusive_sample :
  ~ (cmd_pc cmd_running_sys = CmdExecuting /\
     render_pc cmd_running_sys = RInPass) /\
  (cmd_pc cmd_running_sys = CmdExecuting ->
     lock_writer cmd_running_sys = Some TCmd) /\
  (render_pc cmd_running_sys = RInPass ->
     lock_writer cmd_running_sys = Some TRender).
Proof.
  apply (command_and_pass_exclusive sample_W sample_cfg (fun _ g => Some g)).
  apply reach_step with (sy := sample_sys).
  - apply reach_init. repeat split.
  - apply (step_cmd_acquire sample_W sample_cfg (fun _ g => Some g) sample_sys
             (Some TCmd)); reflexivity.
Defined.

Lemma render_pass_order_and_tick_sample :
  exists steps,
    events sample_gui_after =
      events sample_gui ++ [EAcquireWrite] ++ steps ++ [EReleaseWrite] /\
    sublist steps [ESync; EResize; ERefresh; ERedraw] /\
    (ESync ∈ steps <-> sync_timer sample_gui <= 0) /\
    (EResize ∈ steps <-> get_var needs_resize (vars sample_gui) = true) /\
    (ERefresh ∈ steps <-> get_var needs_refresh (vars sample_gui) = true /\
                           get_var needs_resize (vars sample_gui) = false) /\
    (ERedraw ∈ steps <-> get_var needs_redraw (vars sample_gui) = true /\
                          get_var needs_resize (vars sample_gui) = false) /\
    sync_timer sample_gui_after =
      (if sync_timer sample_gui <=? 0 then 5 else sync_timer sample_gui).
Proof.
  apply (proj1 (render_pass_order_and_tick sample_W sample_cfg)
               sample_gui sample_gui_after).
  vm_compute. reflexivity.
Defined.

(** ** Floating windows *)

Lemma subw_init_inv ci top left h w st st' :
  _subw_init ci top left h w st = Some st' ->
  newpad_ok (h + 1) w = true /\
  st' = <[ ci := {| g_top := top; g_left := left; g_height := h; g_width := w |} ]> st.
Proof.
  unfold _subw_init. destruct (newpad_ok (h + 1) w); [|discriminate].
  intros Heq. injection Heq as <-. split; reflexivity.
Qed.

Lemma subw_size_height_spec W cfg ci h :
  _subw_size_height W cfg ci h =
  spec_alloc (cfg_max W cfg Vertical ci) (requested W Vertical ci h) h.
Proof.
  unfold _subw_size_height, spec_alloc, cfg_max, requested.
  destruct (get_opt_int cfg _) as [c|]; [destruct (c =? 0)|]; lia.
Qed.

Lemma subw_size_width_spec W cfg ci w :
  _subw_size_width W cfg ci w =
  spec_alloc (cfg_max W cfg Horizontal ci) (requested W Horizontal ci w) w.
Proof.
  unfold _subw_size_width, spec_alloc, cfg_max, requested.
  destruct (get_opt_int cfg _) as [c|]; [destruct (c =? 0)|]; lia.
Qed.

Lemma size_along_spec W cfg o ci avail :
  size_along W cfg o ci avail =
  spec_alloc (cfg_max W cfg o ci) (requested W o ci avail) avail.
Proof.
  destruct o; [apply subw_size_width_spec|apply subw_size_height_spec].
Qed.

Lemma init_floats_lookup W cfg sh sw fs :
  forall st st',
    init_floats W cfg fs sh sw st = Some st' ->
    (forall f, f ∈ fs ->
       exists g, float_geom W cfg f sh sw = Some g /\ st' !! f = Some g) /\
    (forall f, f ∉ fs -> st' !! f = st !! f).
Proof.
  induction fs as [|x tl IH]; intros st st' H.
  - cbn in H. injection H as <-. split; [|reflexivity].
    intros f Hf. by apply elem_of_nil in Hf.
  - cbn [init_floats] in H.
    destruct (float_geom W cfg x sh sw) as [g|] eqn:Eg; [|discriminate].
    destruct (_subw_init x _ _ _ _ st) as [st1|] eqn:Ei; [|discriminate].
    apply subw_init_inv in Ei as [_ ->].
    destruct (IH _ _ H) as [Hin Hout]. split.
    + intros f Hf. destruct (decide (f ∈ tl)) as [Ht|Ht]; [by apply Hin|].
      apply elem_of_cons in Hf as [->|Hf]; [|contradiction].
      exists g. split; [exact Eg|]. rewrite (Hout _ Ht).
      rewrite lookup_insert_eq. by destruct g.
    + intros f Hf. apply not_elem_of_cons in Hf as [Hne Hf].
      rewrite (Hout _ Hf). by rewrite lookup_insert_ne.
Qed.

(** C7: a floating window gets, whatever the tiled windows are, the
    minimum of its configured maximum and its request against the whole
    screen in each dimension, and is placed by its alignment; with align
    bottom-right, maxheight 5, maxwidth 20 and requests at least as large, on
    a screen 80 wide and 24 high, it is placed at top 19, left 60 with
    height 5 and width 20. *)
Theorem float_geometry (W : nat -> Widget) (cfg : Config) (s s' : Screen) :
  subwindows W cfg s = Some s' ->
  (forall f, f ∈ floats s ->
     exists align,
       get_opt_str cfg (get_opt_name (W f) +:+ ".align") = Some align /\
       let h := spec_alloc (cfg_max W cfg Vertical f)
                           (requested W Vertical f (height s)) (height s) in
       let w := spec_alloc (cfg_max W cfg Horizontal f)
                           (requested W Horizontal f (width s)) (width s) in
       pads s' !! f =
         Some {| g_top := if startswith "bottom" align then height s - h else 0;
                 g_left := if endswith "right" align then width s - w else 0;
                 g_height := h; g_width := w |}) /\
  (forall f, f ∈ floats s ->
     height s = 24 -> width s = 80 ->
     get_opt_str cfg (get_opt_name (W f) +:+ ".align") = Some "bottom-right"%string ->
     get_opt_int cfg (get_opt_name (W f) +:+ ".maxheight") = Some 5 ->
     get_opt_int cfg (get_opt_name (W f) +:+ ".maxwidth") = Some 20 ->
     5 <= get_height (W f) 24 -> 20 <= get_width (W f) 80 ->
     pads s' !! f =
       Some {| g_top := 19; g_left := 60; g_height := 5; g_width := 20 |}).
Proof.
  intros Hsub.
  apply subwindows_inv in Hsub as (ib & l & st & sz & st' & _ & _ & Hfl & ->).
  assert (Hpads : forall ib0, pads (_focus 0 (set_pads st' (set_input_box ib0
                     (set_focused None s)))) = st').
  { intros ib0. unfold _focus. destruct (_ && _); reflexivity. }
  rewrite Hpads.
  apply init_floats_lookup in Hfl as [Hin _].
  assert (Hgen : forall f, f ∈ floats s ->
     exists align,
       get_opt_str cfg (get_opt_name (W f) +:+ ".align") = Some align /\
       st' !! f =
         Some {| g_top := if startswith "bottom" align
                          then height s - _subw_size_height W cfg f (height s) else 0;
                 g_left := if endswith "right" align
                           then width s - _subw_size_width W cfg f (width s) else 0;
                 g_height := _subw_size_height W cfg f (height s);
                 g_width := _subw_size_width W cfg f (width s) |}).
  { intros f Hf. destruct (Hin f Hf) as (g & Hg & Hlook).
    unfold float_geom in Hg.
    destruct (get_opt_str cfg _) as [align|]; [|discriminate].
    injection Hg as <-. exists align. split; [reflexivity|exact Hlook]. }
  split.
  - intros f Hf. destruct (Hgen f Hf) as (align & Ha & Hlook).
    exists align. split; [exact Ha|]. cbv zeta.
    rewrite <- subw_size_height_spec, <- subw_size_width_spec. exact Hlook.
  - intros f Hf Hh Hw Ha Hmh Hmw Hrh Hrw.
    destruct (Hgen f Hf) as (align & Ha' & Hlook).
    rewrite Ha in Ha'. injection Ha' as <-. rewrite Hlook.
    unfold _subw_size_height, _subw_size_width.
    rewrite Hmh, Hmw, Hh, Hw.
    change (startswith "bottom" "bottom-right") with true.
    change (endswith "right" "bottom-right") with true.
    cbn [Z.eqb].
    replace (Z.min (Z.min 24 5) (get_height (W f) 24)) with 5 by lia.
    replace (Z.min (Z.min 80 20) (get_width (W f) 80)) with 20 by lia.
    reflexivity.
Qed.

Lemma float_geometry_sample :
  pads sample_screen_after !! 2%nat =
    Some {| g_top := 19; g_left := 60; g_height := 5; g_width := 20 |}.
Proof.
  refine (proj2 (float_geometry sample_W sample_cfg sample_screen
                   sample_screen_after _) 2%nat _ _ _ _ _ _ _ _);
    try reflexivity.
  - apply (bool_decide_unpack _). vm_compute. exact I.
  - vm_compute. discriminate.
  - vm_compute. discriminate.
Defined.

(** ** Focus after a re-layout *)

Lemma focus_0_head (s : Screen) :
  focused (_focus 0 s) =
  match focus_order s with [] => focused s | x :: _ => Some x end.
Proof.
  unfold _focus. destruct (focus_order s) as [|x l] eqn:E; [reflexivity|].
  replace ((-1 * Z.of_nat (length (x :: l)) <? 0)
           && (0 <? Z.of_nat (length (x :: l)))) with true
    by (symmetry; apply andb_true_iff; cbn [length]; split; apply Z.ltb_lt; lia).
  cbn [focused set_focused]. apply (py_index_0 (x :: l)).
Qed.

Lemma focus_0_keeps_head (s : Screen) :
  focused s = head (focus_order s) ->
  focused (_focus 0 s) = head (focus_order s).
Proof.
  intros H. rewrite focus_0_head. destruct (focus_order s); [exact H|reflexivity].
Qed.

Lemma subwindows_focused W cfg s s' :
  subwindows W cfg s = Some s' ->
  focused s' = head (focus_order s') /\ focus_order s' = focus_order s.
Proof.
  intros H.
  apply subwindows_inv in H as (ib & l & st & sz & st' & _ & _ & _ & ->).
  rewrite focus_order_focus, focus_0_head.
  change (focus_order (set_pads st' (set_input_box ib (set_focused None s))))
    with (focus_order s).
  split; [|reflexivity]. destruct (focus_order s); reflexivity.
Qed.

Lemma focus_order_refresh s : focus_order (refresh s) = focus_order s.
Proof. reflexivity. Qed.



(** ** The layout engine: unfolding and bookkeeping *)

Lemma layout_size_item_sub st dim items :
  layout_size_item st dim (Sub items) =
  match layout_sizes st dim items with
  | Some sizes => py_max sizes
  | None => None
  end.
Proof. reflexivity. Qed.

Lemma subw_item_sub W cfg layout top left height width o st :
  subw_item W cfg (Sub layout) top left height width o st =
  let imms := immediates_from 0 layout in
  let '(used, sizes) :=
    size_immediates W cfg o (extent o height width) imms 0
                    (Z.of_nat (length layout))
                    (replicate (length layout) 0) in
  match cmplx_loop (subw_item W cfg) top left height width o layout 0%nat used
                   (Z.of_nat (cmplx_count layout)) sizes st with
  | Some (_, sizes', st') =>
      match init_immediates o top left height width sizes' imms st' with
      | Some st'' => Some (st'', sizes')
      | None => None
      end
  | None => None
  end.
Proof. reflexivity. Qed.

Lemma leaves_sub items : leaves (Sub items) = win_leaves items ∪ sub_leaves items.
Proof.
  cbn [leaves]. induction items as [|x tl IH]; cbn [foldr win_leaves sub_leaves].
  - set_solver.
  - rewrite IH. destruct x as [ci|sub]; cbn [leaves]; set_solver.
Qed.

Lemma py_sum_cons x l : py_sum (x :: l) = x + py_sum l.
Proof. reflexivity. Qed.

Lemma py_sum_insert (l : list Z) (i : nat) (x v : Z) :
  l !! i = Some x -> py_sum (<[ i := v ]> l) = py_sum l - x + v.
Proof.
  revert i. induction l as [|y l IH]; intros [|i] H; cbn in H; try discriminate.
  - injection H as ->. cbn. lia.
  - change (<[ S i := v ]> (y :: l)) with (y :: <[ i := v ]> l).
    rewrite !py_sum_cons, (IH i H). lia.
Qed.

Lemma py_sum_nonneg (l : list Z) : Forall (fun x => 0 <= x) l -> 0 <= py_sum l.
Proof.
  induction 1 as [|x l Hx _ IH]; [cbn; lia|]. rewrite py_sum_cons. lia.
Qed.

Lemma py_sum_replicate_0 n : py_sum (replicate n 0) = 0.
Proof. induction n as [|n IH]; [reflexivity|]. cbn [replicate]. rewrite py_sum_cons. lia. Qed.

Lemma py_max_bounds (lo hi : Z) (l : list Z) (m : Z) :
  Forall (fun x => lo <= x <= hi) l -> py_max l = Some m -> lo <= m <= hi.
Proof.
  destruct l as [|x tl]; [discriminate|]. intros HF H. cbn in H.
  injection H as <-. apply Forall_cons in HF as [Hx HF].
  induction HF as [|y tl Hy HF IH]; cbn [foldr]; lia.
Qed.

(** The immediates are the windows of the list, with their positions. *)
Lemma immediates_from_lookup layout :
  forall i0 i ci,
    (i, ci) ∈ immediates_from i0 layout <->
    exists k, i = (i0 + k)%nat /\ layout !! k = Some (Win ci).
Proof.
  induction layout as [|x tl IH]; intros i0 i ci.
  - cbn. split; [intros H; by apply elem_of_nil in H|intros (k & _ & H); discriminate].
  - destruct x as [c|sub]; cbn [immediates_from].
    + rewrite elem_of_cons, IH. split.
      * intros [Heq|(k & -> & Hk)].
        -- injection Heq as -> ->. exists 0%nat. split; [lia|reflexivity].
        -- exists (S k). split; [lia|exact Hk].
      * intros ([|k] & -> & Hk).
        -- cbn in Hk. injection Hk as ->. left. f_equal. lia.
        -- right. exists k. split; [lia|exact Hk].
    + rewrite IH. split.
      * intros (k & -> & Hk). exists (S k). split; [lia|exact Hk].
      * intros ([|k] & -> & Hk); [discriminate|].
        exists k. split; [lia|exact Hk].
Qed.

Lemma immediates_from_NoDup layout :
  forall i0, NoDup (fst <$> immediates_from i0 layout).
Proof.
  induction layout as [|x tl IH]; intros i0; [constructor|].
  destruct x as [c|sub]; cbn [immediates_from]; [|apply IH].
  cbn [fmap list_fmap fst]. constructor; [|apply IH].
  intros Hin. apply list_elem_of_fmap in Hin as ([i ci] & Heq & Hin).
  cbn in Heq. subst i. apply immediates_from_lookup in Hin as (k & Hk & _). lia.
Qed.

(** ** Measuring a laid-out sub-layout *)

Lemma leaves_item_subseteq (items : list Layout) (x : Layout) :
  x ∈ items -> leaves x ⊆ leaves (Sub items).
Proof.
  cbn [leaves]. induction items as [|y tl IH]; intros Hin.
  - by apply elem_of_nil in Hin.
  - cbn [foldr]. apply elem_of_cons in Hin as [->|Hin]; [set_solver|].
    specialize (IH Hin). set_solver.
Qed.

Lemma layout_sizes_Forall st dim (P : Z -> Prop) (items : list Layout) :
  forall sizes,
    Forall (fun x => forall m, layout_size_item st dim x = Some m -> P m) items ->
    layout_sizes st dim items = Some sizes ->
    Forall P sizes.
Proof.
  induction items as [|x tl IH]; intros sizes HF H.
  - cbn in H. injection H as <-. constructor.
  - cbn [layout_sizes] in H. apply Forall_cons in HF as [Hx HF].
    destruct (layout_size_item st dim x) as [s|]; [|discriminate].
    change ((fix sizes_of (l : list Layout) : option (list Z) :=
               match l with
               | [] => Some []
               | y :: tl0 =>
                   match layout_size_item st dim y with
                   | Some s0 =>
                       match sizes_of tl0 with
                       | Some ss => Some (s0 :: ss)
                       | None => None
                       end
                   | None => None
                   end
               end) tl) with (layout_sizes st dim tl) in H.
    destruct (layout_sizes st dim tl) as [ss|]; [|discriminate].
    injection H as <-. constructor; [by apply Hx|by apply IH].
Qed.

(** The measured size of a sub-layout whose windows all fit a rectangle
    fits that rectangle; in width it is one less than the widest pad. *)
Lemma layout_size_bounds st h w (n : Layout) :
  (forall ci, ci ∈ leaves n -> exists g, st !! ci = Some g /\ fits h w g) ->
  forall dim m, layout_size_item st dim n = Some m ->
  match dim with
  | DHeight => 0 <= m <= h
  | DWidth => 0 <= m <= w - 1
  end.
Proof.
  induction n as [ci|items IH] using Layout_ind'; intros Hfit dim m Hm.
  - cbn in Hm. destruct (Hfit ci) as (g & Hg & [Hh Hw]); [set_solver|].
    rewrite Hg in Hm. injection Hm as <-. destruct dim; cbn; lia.
  - rewrite layout_size_item_sub in Hm.
    destruct (layout_sizes st dim items) as [sizes|] eqn:Es; [|discriminate].
    assert (HF : Forall (fun x => match dim with
                                  | DHeight => 0 <= x <= h
                                  | DWidth => 0 <= x <= w - 1
                                  end) sizes).
    { apply (layout_sizes_Forall st dim _ items); [|exact Es].
      apply Forall_forall. intros x Hx m0 Hm0.
      rewrite Forall_forall in IH. apply (IH x Hx); [|exact Hm0].
      intros ci Hci. apply Hfit.
      by apply (leaves_item_subseteq items x Hx). }
    destruct dim; eapply py_max_bounds; eauto.
Qed.

Lemma layout_sizes_agree st st0 dim (items : list Layout) :
  Forall (fun x => layout_size_item st dim x = layout_size_item st0 dim x) items ->
  layout_sizes st dim items = layout_sizes st0 dim items.
Proof.
  induction 1 as [|x tl Hx _ IH]; [reflexivity|].
  cbn [layout_sizes]. rewrite Hx.
  destruct (layout_size_item st0 dim x); [|reflexivity].
  change (match layout_sizes st dim tl with
          | Some ss => Some (z :: ss) | None => None end =
          match layout_sizes st0 dim tl with
          | Some ss => Some (z :: ss) | None => None end).
  by rewrite IH.
Qed.

(** The measure reads the store at the windows of the sub-layout only. *)
Lemma layout_size_item_agree st st0 dim (n : Layout) :
  (forall ci, ci ∈ leaves n -> st !! ci = st0 !! ci) ->
  layout_size_item st dim n = layout_size_item st0 dim n.
Proof.
  induction n as [ci|items IH] using Layout_ind'; intros Hag.
  - cbn. rewrite (Hag ci) by set_solver. reflexivity.
  - rewrite !layout_size_item_sub.
    rewrite (layout_sizes_agree st st0 dim items); [reflexivity|].
    apply Forall_forall. intros x Hx. rewrite Forall_forall in IH.
    apply (IH x Hx). intros ci Hci. apply Hag.
    by apply (leaves_item_subseteq items x Hx).
Qed.

(** ** Stores between two points of a layout run *)

Lemma inside_fits top left h w g : inside top left h w g -> fits h w g.
Proof. unfold inside, fits. lia. Qed.

Lemma inside_mono top left h w top' left' h' w' g :
  top' <= top -> top + h <= top' + h' ->
  left' <= left -> left + w <= left' + w' ->
  inside top left h w g -> inside top' left' h' w' g.
Proof. unfold inside. lia. Qed.

Lemma wrote_refl top left h w st : wrote top left h w ∅ st st.
Proof. split; [set_solver|reflexivity]. Qed.

Lemma wrote_mono top left h w top' left' h' w' X st st' :
  top' <= top -> top + h <= top' + h' ->
  left' <= left -> left + w <= left' + w' ->
  wrote top left h w X st st' -> wrote top' left' h' w' X st st'.
Proof.
  intros Ht Hh Hl Hw [Hin Hout]. split; [|exact Hout].
  intros ci Hci. destruct (Hin ci Hci) as (g & Hg & Hf).
  exists g. split; [exact Hg|]. by apply (inside_mono top left h w).
Qed.

Lemma wrote_trans top left h w X Y st st1 st2 :
  wrote top left h w X st st1 -> wrote top left h w Y st1 st2 ->
  wrote top left h w (X ∪ Y) st st2.
Proof.
  intros [Hin1 Hout1] [Hin2 Hout2]. split.
  - intros ci Hci. destruct (decide (ci ∈ Y)) as [HY|HY]; [by apply Hin2|].
    rewrite (Hout2 ci HY). apply Hin1. set_solver.
  - intros ci Hci. rewrite Hout2 by set_solver. apply Hout1. set_solver.
Qed.

Lemma wrote_insert top left h w ci g st :
  inside top left h w g -> wrote top left h w {[ ci ]} st (<[ ci := g ]> st).
Proof.
  intros Hf. split.
  - intros c Hc. apply elem_of_singleton in Hc as ->.
    exists g. by rewrite lookup_insert_eq.
  - intros c Hc. apply not_elem_of_singleton in Hc.
    by rewrite lookup_insert_ne.
Qed.

Lemma wrote_fits top left h w X st st' :
  wrote top left h w X st st' ->
  forall ci, ci ∈ X -> exists g, st' !! ci = Some g /\ fits h w g.
Proof.
  intros [Hin _] ci Hci. destruct (Hin ci Hci) as (g & Hg & Hf).
  exists g. split; [exact Hg|]. by apply (inside_fits top left).
Qed.

Lemma py_sum_app (l1 l2 : list Z) : py_sum (l1 ++ l2) = py_sum l1 + py_sum l2.
Proof.
  induction l1 as [|x l1 IH]; [reflexivity|].
  cbn [app]. rewrite !py_sum_cons, IH. lia.
Qed.

Lemma py_sum_take_nonneg (l : list Z) (i : nat) :
  Forall (fun x => 0 <= x) l -> 0 <= py_sum (take i l).
Proof. intros HF. apply py_sum_nonneg. by apply Forall_take. Qed.

Lemma py_sum_take_le (l : list Z) (i : nat) :
  Forall (fun x => 0 <= x) l -> py_sum (take i l) <= py_sum l.
Proof.
  intros HF. rewrite <- (take_drop i l) at 2. rewrite py_sum_app.
  pose proof (py_sum_nonneg (drop i l) (Forall_drop _ i _ HF)). lia.
Qed.

Lemma py_sum_take_elem_le (l : list Z) (i : nat) (x : Z) :
  Forall (fun x => 0 <= x) l -> l !! i = Some x ->
  py_sum (take i l) + x <= py_sum l.
Proof.
  intros HF Hx. pose proof (py_sum_take_le l (S i) HF) as H.
  rewrite (take_S_r l i x Hx), py_sum_app in H. cbn in H. lia.
Qed.

(** ** The three loops of [_subw] *)

Section Loops.

Variable W : nat -> Widget.
Variable cfg : Config.

Lemma size_along_le o ci avail : size_along W cfg o ci avail <= avail.
Proof.
  destruct o; cbn; unfold _subw_size_width, _subw_size_height; lia.
Qed.

Lemma share_le_rest (rest units : Z) : 0 <= rest -> 1 <= units -> 0 <= rest / units <= rest.
Proof.
  intros Hr Hu. split; [apply Z.div_pos; lia|].
  apply Z.div_le_upper_bound; nia.
Qed.

Lemma immediates_from_length layout i0 :
  (length (immediates_from i0 layout) <= length layout)%nat.
Proof.
  revert i0. induction layout as [|x tl IH]; intros i0; [reflexivity|].
  destruct x; cbn [immediates_from length]; specialize (IH (S i0)); lia.
Qed.

(** First loop: entries of [sizes] outside the immediates are untouched. *)
Lemma size_immediates_frame o ext imms :
  forall used units sizes used' sizes',
    size_immediates W cfg o ext imms used units sizes = (used', sizes') ->
    length sizes' = length sizes /\
    (forall j, j ∉ fst <$> imms -> sizes' !! j = sizes !! j).
Proof.
  induction imms as [|[i ci] tl IH]; intros used units sizes used' sizes' H.
  - cbn in H. injection H as <- <-. split; reflexivity.
  - cbn [size_immediates] in H. apply IH in H as [Hlen Hfr].
    rewrite length_insert in Hlen. split; [exact Hlen|].
    intros j Hj. cbn [fmap list_fmap fst] in Hj.
    apply not_elem_of_cons in Hj as [Hne Hj].
    rewrite (Hfr j Hj). by rewrite list_lookup_insert_ne.
Qed.

(** First loop: the k-th immediate gets the minimum of its share, its
    configured maximum and its request, the share being what the
    immediates before it have left, divided by the units still to serve. *)
Lemma size_immediates_shares o ext imms :
  forall used units sizes used' sizes',
    size_immediates W cfg o ext imms used units sizes = (used', sizes') ->
    NoDup (fst <$> imms) ->
    (forall i, i ∈ fst <$> imms -> (i < length sizes)%nat) ->
    forall k i ci, imms !! k = Some (i, ci) ->
      sizes' !! i =
      Some (size_along W cfg o ci
              ((ext - (used + taken_by sizes' imms k)) / (units - Z.of_nat k))).
Proof.
  induction imms as [|[i0 c0] tl IH];
    intros used units sizes used' sizes' H Hnd Hlt k i ci Hk; [discriminate|].
  cbn [size_immediates] in H.
  cbn [fmap list_fmap fst] in Hnd, Hlt. apply NoDup_cons in Hnd as [Hni Hnd].
  assert (Hi0 : sizes' !! i0 =
                Some (size_along W cfg o c0 ((ext - used) / units))).
  { destruct (size_immediates_frame _ _ _ _ _ _ _ _ H) as [_ Hfr].
    rewrite (Hfr i0 Hni). apply list_lookup_insert_eq. apply Hlt. by left. }
  destruct k as [|k].
  - cbn in Hk. injection Hk as <- <-. rewrite Hi0.
    unfold taken_by. cbn [take fmap list_fmap py_sum foldr].
    do 3 f_equal; cbn; lia.
  - cbn in Hk.
    rewrite (IH _ _ _ _ _ H Hnd) with (k := k) (ci := ci); [|
      intros j Hj; rewrite length_insert; apply Hlt; by right | exact Hk].
    unfold taken_by. cbn [take fmap list_fmap fst]. rewrite py_sum_cons, Hi0.
    cbn [default]. do 3 f_equal; unfold id; lia.
Qed.

(** First loop: [used] stays the sum of [sizes] and within the extent. *)
Lemma size_immediates_used o ext imms :
  forall used units sizes used' sizes',
    size_immediates W cfg o ext imms used units sizes = (used', sizes') ->
    NoDup (fst <$> imms) ->
    (forall i, i ∈ fst <$> imms -> sizes !! i = Some 0) ->
    used = py_sum sizes -> used <= ext ->
    Z.of_nat (length imms) <= units ->
    used' = py_sum sizes' /\ used' <= ext.
Proof.
  induction imms as [|[i0 c0] tl IH];
    intros used units sizes used' sizes' H Hnd Hz Hsum Hle Hu.
  - cbn in H. injection H as <- <-. split; assumption.
  - cbn [size_immediates] in H. cbn [fmap list_fmap fst] in Hnd, Hz.
    apply NoDup_cons in Hnd as [Hni Hnd]. cbn [length] in Hu.
    pose proof (size_along_le o c0 ((ext - used) / units)) as Hs.
    pose proof (share_le_rest (ext - used) units ltac:(lia) ltac:(lia)) as Hd.
    apply IH in H; [exact H|exact Hnd| | | |].
    + intros i Hi. rewrite list_lookup_insert_ne; [apply Hz; by right|].
      intros ->. contradiction.
    + rewrite (py_sum_insert sizes i0 0) by (apply Hz; by left). lia.
    + lia.
    + lia.
Qed.

(** Last loop: what a successful run tells about the pads made. *)
Lemma init_immediates_ok o top left h w sizes imms :
  forall st st',
    init_immediates o top left h w sizes imms st = Some st' ->
    forall i ci, (i, ci) ∈ imms ->
      newpad_ok (fst (imm_dims o h w sizes i) + 1)
                (snd (imm_dims o h w sizes i)) = true.
Proof.
  induction imms as [|[i0 c0] tl IH]; intros st st' H i ci Hin.
  - by apply elem_of_nil in Hin.
  - cbn [init_immediates] in H.
    destruct (match o with
              | Horizontal => _subw_init c0 _ _ _ _ st
              | Vertical => _subw_init c0 _ _ _ _ st
              end) as [st1|] eqn:E; [|discriminate].
    apply elem_of_cons in Hin as [Heq|Hin]; [|by eapply IH].
    injection Heq as -> ->.
    destruct o; apply subw_init_inv in E as [E _]; exact E.
Qed.

Lemma init_immediates_wrote o top left h w sizes top0 left0 h0 w0 imms :
  forall st st',
    init_immediates o top left h w sizes imms st = Some st' ->
    (forall i ci, (i, ci) ∈ imms ->
       inside top0 left0 h0 w0 (imm_geom o top left h w sizes i)) ->
    wrote top0 left0 h0 w0 (list_to_set (snd <$> imms)) st st'.
Proof.
  induction imms as [|[i0 c0] tl IH]; intros st st' H Hfit.
  - cbn in H. injection H as <-. apply wrote_refl.
  - cbn [init_immediates] in H.
    destruct (match o with
              | Horizontal => _subw_init c0 _ _ _ _ st
              | Vertical => _subw_init c0 _ _ _ _ st
              end) as [st1|] eqn:E; [|discriminate].
    cbn [fmap list_fmap snd list_to_set].
    apply (wrote_trans _ _ _ _ _ _ st st1 st').
    + specialize (Hfit i0 c0 ltac:(by left)). unfold imm_geom in Hfit.
      destruct o; apply subw_init_inv in E as [_ ->]; apply wrote_insert;
        exact Hfit.
    + apply (IH _ _ H). intros i ci Hin. apply (Hfit i ci). by right.
Qed.

Lemma immediates_from_ids layout i0 :
  list_to_set (snd <$> immediates_from i0 layout) = win_leaves layout.
Proof.
  revert i0. induction layout as [|x tl IH]; intros i0; [reflexivity|].
  destruct x as [c|sub]; cbn [immediates_from win_leaves]; [|apply IH].
  cbn [fmap list_fmap snd list_to_set]. by rewrite IH.
Qed.

End Loops.

Section SecondLoop.

Variable rec : Layout -> Z -> Z -> Z -> Z -> Orientation -> gmap nat Geom ->
               option (gmap nat Geom * list Z).
Variables (top left h w : Z) (o : Orientation).

(** Second loop: entries of [sizes] outside the sub-layouts are untouched. *)
Lemma cmplx_loop_sizes_frame items :
  forall i used units sizes st used' sizes' st',
    cmplx_loop rec top left h w o items i used units sizes st
      = Some (used', sizes', st') ->
    length sizes' = length sizes /\
    (forall j, (forall k sub, items !! k = Some (Sub sub) -> j <> (i + k)%nat) ->
       sizes' !! j = sizes !! j).
Proof.
  induction items as [|x tl IH]; intros i used units sizes st used' sizes' st' H.
  - cbn in H. injection H as <- <- <-. split; reflexivity.
  - assert (Hshift : forall j,
              (forall k sub, (x :: tl) !! k = Some (Sub sub) -> j <> (i + k)%nat) ->
              forall k sub, tl !! k = Some (Sub sub) -> j <> (S i + k)%nat).
    { intros j Hj k sub Hk. specialize (Hj (S k) sub Hk). lia. }
    destruct x as [ci|sub].
    + cbn [cmplx_loop] in H. apply IH in H as [Hlen Hfr].
      split; [exact Hlen|]. intros j Hj. apply Hfr. by apply Hshift.
    + cbn [cmplx_loop] in H.
      assert (Hgen : forall sz st1,
                cmplx_loop rec top left h w o tl (S i) (used + sz) (units - 1)
                  (<[ i := sz ]> sizes) st1 = Some (used', sizes', st') ->
                length sizes' = length sizes /\
                (forall j, (forall k sub0, (Sub sub :: tl) !! k = Some (Sub sub0) ->
                              j <> (i + k)%nat) ->
                   sizes' !! j = sizes !! j)).
      { intros sz st1 H1. apply IH in H1 as [Hlen Hfr].
        rewrite length_insert in Hlen. split; [exact Hlen|].
        intros j Hj. rewrite (Hfr j (Hshift j Hj)).
        apply list_lookup_insert_ne. specialize (Hj 0%nat sub eq_refl). lia. }
      destruct o.
      * destruct (rec _ _ _ _ _ _ _) as [[st1 ?]|]; [|discriminate].
        destruct (layout_size_item st1 DWidth (Sub sub)) as [sz|]; [|discriminate].
        by apply (Hgen sz st1).
      * destruct (rec _ _ _ _ _ _ _) as [[st1 ?]|]; [|discriminate].
        destruct (layout_size_item st1 DHeight (Sub sub)) as [sz|]; [|discriminate].
        by apply (Hgen sz st1).
Qed.

Hypothesis Hh : 0 <= h.
Hypothesis Hw : 0 <= w.

(** Second loop: each sub-layout takes no more than what it is offered,
    so [used] stays the sum of [sizes] and within the extent, and the
    windows below the sub-layouts lie inside the rectangle. *)
Lemma cmplx_loop_bounds items :
  forall i used units sizes st used' sizes' st',
    Forall (child_ok rec) items ->
    cmplx_loop rec top left h w o items i used units sizes st
      = Some (used', sizes', st') ->
    units = Z.of_nat (cmplx_count items) ->
    used <= extent o h w -> used = py_sum sizes ->
    Forall (fun x => 0 <= x) sizes ->
    (forall k sub, items !! k = Some (Sub sub) -> sizes !! (i + k)%nat = Some 0) ->
    used' = py_sum sizes' /\ used' <= extent o h w /\
    Forall (fun x => 0 <= x) sizes' /\
    wrote top left h w (sub_leaves items) st st'.
Proof.
  induction items as [|x tl IH];
    intros i used units sizes st used' sizes' st' HF H Hu Hle Hsum Hpos Hz.
  - cbn in H. injection H as <- <- <-.
    split; [exact Hsum|]. split; [exact Hle|]. split; [exact Hpos|].
    apply wrote_refl.
  - apply Forall_cons in HF as [Hx HF].
    assert (Hzs : forall k sub, tl !! k = Some (Sub sub) ->
                    sizes !! (S i + k)%nat = Some 0).
    { intros k sub Hk. replace (S i + k)%nat with (i + S k)%nat by lia.
      by apply (Hz (S k) sub). }
    destruct x as [ci|sub].
    + cbn [cmplx_loop] in H. cbn [cmplx_count sub_leaves] in *.
      by apply (IH (S i) used units sizes st).
    + cbn [cmplx_loop] in H. cbn [cmplx_count sub_leaves] in *.
      assert (Hi : sizes !! i = Some 0).
      { specialize (Hz 0%nat sub eq_refl). by rewrite Nat.add_0_r in Hz. }
      pose proof (py_sum_take_nonneg sizes i Hpos) as Hoff0.
      pose proof (py_sum_take_le sizes i Hpos) as Hoff1.
      assert (Hgen : forall avail st1 sz,
                0 <= avail <= extent o h w - used ->
                wrote top left h w (leaves (Sub sub)) st st1 ->
                0 <= sz <= avail ->
                cmplx_loop rec top left h w o tl (S i) (used + sz) (units - 1)
                  (<[ i := sz ]> sizes) st1 = Some (used', sizes', st') ->
                used' = py_sum sizes' /\ used' <= extent o h w /\
                Forall (fun x => 0 <= x) sizes' /\
                wrote top left h w (leaves (Sub sub) ∪ sub_leaves tl) st st').
      { intros avail st1 sz Hav Hwr Hsz H1.
        apply IH in H1 as (Hs' & Hl' & Hp' & Hw'); [| exact HF | lia | lia | | | ].
        - split; [exact Hs'|]. split; [exact Hl'|]. split; [exact Hp'|].
          by apply (wrote_trans _ _ _ _ _ _ st st1 st').
        - rewrite (py_sum_insert sizes i 0) by exact Hi. lia.
        - apply Forall_insert; [exact Hpos|lia].
        - intros k sub0 Hk. rewrite list_lookup_insert_ne by lia.
          by apply (Hzs k sub0). }
      assert (Hunits : 1 <= units) by lia.
      destruct o; cbn [extent] in *.
      * pose proof (share_le_rest (w - used) units ltac:(lia) Hunits) as Hd.
        destruct (rec _ _ _ _ _ _ _) as [[st1 szs]|] eqn:Er; [|discriminate].
        destruct (layout_size_item st1 DWidth (Sub sub)) as [sz|] eqn:Em;
          [|discriminate].
        pose proof (Hx _ _ _ _ _ _ _ _ Hh (proj1 Hd) Er) as Hwr.
        pose proof (layout_size_bounds st1 h _ (Sub sub)
                      (wrote_fits _ _ _ _ _ _ _ Hwr) DWidth sz Em) as Hb.
        cbn in Hb.
        apply (Hgen ((w - used) / units) st1 sz); [lia| |lia|exact H].
        apply (wrote_mono top (left + py_sum (take i sizes)) h
                          ((w - used) / units)); [lia|lia|lia|lia|exact Hwr].
      * pose proof (share_le_rest (h - used) units ltac:(lia) Hunits) as Hd.
        destruct (rec _ _ _ _ _ _ _) as [[st1 szs]|] eqn:Er; [|discriminate].
        destruct (layout_size_item st1 DHeight (Sub sub)) as [sz|] eqn:Em;
          [|discriminate].
        pose proof (Hx _ _ _ _ _ _ _ _ (proj1 Hd) Hw Er) as Hwr.
        pose proof (layout_size_bounds st1 _ w (Sub sub)
                      (wrote_fits _ _ _ _ _ _ _ Hwr) DHeight sz Em) as Hb.
        cbn in Hb.
        apply (Hgen ((h - used) / units) st1 sz); [lia| |lia|exact H].
        apply (wrote_mono (top + py_sum (take i sizes)) left
                          ((h - used) / units) w); [lia|lia|lia|lia|exact Hwr].
Qed.

End SecondLoop.

(** ** A successful run of [_subw] *)

Section Fits.

Variable W : nat -> Widget.
Variable cfg : Config.

(** The phases of a run of [_subw] on a list, made explicit. *)
Lemma subw_item_phases layout top left h w o st st' sz :
  subw_item W cfg (Sub layout) top left h w o st = Some (st', sz) ->
  exists used1 sizes1 used2 st2,
    size_immediates W cfg o (extent o h w) (immediates_from 0 layout) 0
      (Z.of_nat (length layout)) (replicate (length layout) 0)
      = (used1, sizes1) /\
    cmplx_loop (subw_item W cfg) top left h w o layout 0%nat used1
      (Z.of_nat (cmplx_count layout)) sizes1 st = Some (used2, sz, st2) /\
    init_immediates o top left h w sz (immediates_from 0 layout) st2 = Some st'.
Proof.
  rewrite subw_item_sub. cbv zeta.
  destruct (size_immediates _ _ _ _ _ _ _ _) as [used1 sizes1] eqn:E1.
  destruct (cmplx_loop _ _ _ _ _ _ _ _ _ _ _ _) as [[[used2 sizes2] st2]|] eqn:E2;
    [|discriminate].
  destruct (init_immediates _ _ _ _ _ _ _ _) as [st3|] eqn:E3; [|discriminate].
  intros Heq. injection Heq as <- <-.
  exists used1, sizes1, used2, st2. repeat split; assumption.
Qed.

(** After the first two loops the entry of an immediate is the one the
    first loop wrote. *)
Lemma imm_entry_kept layout top left h w o st used1 sizes1 used2 sizes2 st2 :
  cmplx_loop (subw_item W cfg) top left h w o layout 0%nat used1
    (Z.of_nat (cmplx_count layout)) sizes1 st = Some (used2, sizes2, st2) ->
  forall i ci, (i, ci) ∈ immediates_from 0 layout -> sizes2 !! i = sizes1 !! i.
Proof.
  intros E2 i ci Hin.
  apply cmplx_loop_sizes_frame in E2 as [_ Hfr]. apply Hfr.
  intros k sub Hk ->. apply immediates_from_lookup in Hin as (k' & Heq & Hk').
  assert (k' = k) as -> by lia. congruence.
Qed.

Lemma subw_item_ok (n : Layout) :
  forall top left h w o st st' sz,
    0 <= h -> 0 <= w ->
    subw_item W cfg n top left h w o st = Some (st', sz) ->
    wrote top left h w (leaves n) st st' /\ py_sum sz <= extent o h w.
Proof.
  induction n as [ci|layout IH] using Layout_ind';
    intros top left h w o st st' sz Hh Hw H; [discriminate|].
  apply subw_item_phases in H as (used1 & sizes1 & used2 & st2 & E1 & E2 & E3).
  set (imms := immediates_from 0 layout) in *.
  pose proof (immediates_from_NoDup layout 0) as Hnd. fold imms in Hnd.
  destruct (size_immediates_frame _ _ _ _ _ _ _ _ _ _ E1) as [Hlen1 Hfr1].
  rewrite length_replicate in Hlen1.
  destruct (cmplx_loop_sizes_frame _ _ _ _ _ _ _ _ _ _ _ _ _ _ _ E2) as [Hlen2 _].
  pose proof (imm_entry_kept _ _ _ _ _ _ _ _ _ _ _ _ E2) as Hkept. fold imms in Hkept.
  pose proof (init_immediates_ok _ _ _ _ _ _ _ _ _ E3) as Hok.
  (* positions of immediates are in range *)
  assert (Hrange : forall i ci, (i, ci) ∈ imms -> (i < length layout)%nat).
  { intros i ci Hin. apply immediates_from_lookup in Hin as (k & -> & Hk).
    apply lookup_lt_Some in Hk. lia. }
  (* sizes of immediates are not negative *)
  assert (Himm : forall i ci, (i, ci) ∈ imms ->
            exists x, sizes1 !! i = Some x /\ sz !! i = Some x /\ 0 <= x /\
                      0 <= fst (imm_dims o h w sz i) /\
                      1 <= snd (imm_dims o h w sz i)).
  { intros i ci Hin. specialize (Hok i ci Hin).
    destruct (lookup_lt_is_Some_2 sizes1 i) as [x Hx];
      [rewrite Hlen1; by apply (Hrange i ci)|].
    exists x. rewrite (Hkept i ci Hin). split; [exact Hx|]. split; [exact Hx|].
    unfold imm_dims, newpad_ok in *. rewrite (Hkept i ci Hin), Hx in *.
    apply andb_true_iff in Hok as [Ha Hb].
    apply Z.ltb_lt in Ha. apply Z.ltb_lt in Hb.
    destruct o; cbn in *; lia. }
  assert (Hpos1 : Forall (fun x => 0 <= x) sizes1).
  { apply Forall_lookup. intros j x Hj.
    destruct (decide (j ∈ fst <$> imms)) as [Hin|Hnin].
    - apply list_elem_of_fmap in Hin as ([i ci] & -> & Hin).
      destruct (Himm i ci Hin) as (x' & Hx' & _ & Hx0 & _).
      cbn in Hj. congruence.
    - rewrite (Hfr1 j Hnin) in Hj. apply lookup_replicate in Hj as [-> _]. lia. }
  destruct (size_immediates_used W cfg _ _ _ _ _ _ _ _ E1 Hnd) as [Hsum1 Hle1].
  { intros i Hi. apply list_elem_of_fmap in Hi as ([i' ci] & -> & Hin).
    apply lookup_replicate. split; [reflexivity|]. by apply (Hrange i' ci). }
  { by rewrite py_sum_replicate_0. }
  { destruct o; cbn; lia. }
  { pose proof (immediates_from_length layout 0). fold imms in H. lia. }
  assert (Hchildren : Forall (child_ok (subw_item W cfg)) layout).
  { apply Forall_forall. intros c Hc. rewrite Forall_forall in IH.
    intros t l h' w' o' s s1 zs Hh' Hw' Hr. by apply (IH c Hc t l h' w' o' s s1 zs). }
  assert (Hzero : forall k sub, layout !! k = Some (Sub sub) ->
                    sizes1 !! (0 + k)%nat = Some 0).
  { intros k sub Hk. cbn. rewrite Hfr1.
    - apply lookup_replicate. split; [reflexivity|]. by apply lookup_lt_Some in Hk.
    - intros Hin. apply list_elem_of_fmap in Hin as ([i ci] & Heq & Hin).
      cbn in Heq. subst i. apply immediates_from_lookup in Hin as (k' & Heq & Hk').
      assert (k' = k) as -> by lia. congruence. }
  destruct (cmplx_loop_bounds (subw_item W cfg) top left h w o Hh Hw layout
              0%nat used1 (Z.of_nat (cmplx_count layout)) sizes1 st used2 sz st2
              Hchildren E2 eq_refl Hle1 Hsum1 Hpos1 Hzero)
    as (Hsum2 & Hle2 & Hpos2 & Hwr2).
  split; [|by rewrite <- Hsum2].
  rewrite leaves_sub, (union_comm_L (win_leaves layout)).
  apply (wrote_trans _ _ _ _ _ _ st st2 st'); [exact Hwr2|].
  rewrite <- (immediates_from_ids layout 0).
  apply (init_immediates_wrote o top left h w sz top left h w _ st2 st' E3).
  intros i ci Hin. destruct (Himm i ci Hin) as (x & _ & Hx & Hx0 & Hd1 & Hd2).
  pose proof (py_sum_take_elem_le sz i x Hpos2 Hx) as Hxs.
  pose proof (py_sum_take_nonneg sz i Hpos2) as Hoff.
  unfold imm_dims in *. unfold imm_geom, inside. rewrite Hx in *.
  destruct o; cbn in *; lia.
Qed.

End Fits.

(** X19: when the engine lays a list out into a rectangle (with sides that
    are not negative), the list [sizes] it keeps, which for a sub-layout
    holds what [_subw_layout_size] measures, sums to no more than the extent
    of the rectangle along the active axis, and the size of each immediate
    window is the minimum of its configured maximum (none when zero or
    unset), its requested size and its share, the share being the space the
    immediates before it have left divided by the number of units not yet
    served.  Moreover every window below the list is placed inside the
    rectangle. *)
Theorem subw_sizes_within_extent (W : nat -> Widget) (cfg : Config)
    (layout : list Layout) (top left height width : Z) (o : Orientation)
    (st st' : gmap nat Geom) (sizes : list Z) :
  0 <= height -> 0 <= width ->
  _subw W cfg layout top left height width o st = Some (st', sizes) ->
  py_sum sizes <= extent o height width /\
  length sizes = length layout /\
  (forall k i ci, immediates_from 0 layout !! k = Some (i, ci) ->
     let share :=
       (extent o height width - taken_by sizes (immediates_from 0 layout) k)
       / (Z.of_nat (length layout) - Z.of_nat k) in
     sizes !! i =
       Some (spec_alloc (cfg_max W cfg o ci) (requested W o ci share) share)) /\
  (forall ci, ci ∈ leaves (Sub layout) ->
     exists g, st' !! ci = Some g /\ inside top left height width g).
Proof.
  intros Hh Hw H. unfold _subw in H.
  destruct (subw_item_ok W cfg (Sub layout) _ _ _ _ _ _ _ _ Hh Hw H)
    as [[Hinside _] Hsum].
  split; [exact Hsum|].
  cut (length sizes = length layout /\
       (forall k i ci, immediates_from 0 layout !! k = Some (i, ci) ->
          let share :=
            (extent o height width - taken_by sizes (immediates_from 0 layout) k)
            / (Z.of_nat (length layout) - Z.of_nat k) in
          sizes !! i =
            Some (spec_alloc (cfg_max W cfg o ci) (requested W o ci share) share))).
  { intros [H1 H2]. split; [exact H1|]. split; [exact H2|exact Hinside]. }
  clear Hinside.
  apply subw_item_phases in H as (used1 & sizes1 & used2 & st2 & E1 & E2 & _).
  destruct (size_immediates_frame _ _ _ _ _ _ _ _ _ _ E1) as [Hlen1 _].
  rewrite length_replicate in Hlen1.
  destruct (cmplx_loop_sizes_frame _ _ _ _ _ _ _ _ _ _ _ _ _ _ _ E2) as [Hlen2 _].
  split; [congruence|].
  pose proof (imm_entry_kept _ _ _ _ _ _ _ _ _ _ _ _ _ _ E2) as Hkept.
  intros k i ci Hk. cbv zeta.
  assert (Htaken : taken_by sizes (immediates_from 0 layout) k =
                   taken_by sizes1 (immediates_from 0 layout) k).
  { unfold taken_by. f_equal. apply list_fmap_ext.
    intros j [i' c'] Hj. cbn. apply lookup_take_Some in Hj as [Hj _].
    by rewrite (Hkept i' c') by (by apply list_elem_of_lookup_2 in Hj). }
  rewrite Htaken, <- size_along_spec.
  rewrite (Hkept i ci) by (by apply list_elem_of_lookup_2 in Hk).
  rewrite (size_immediates_shares W cfg _ _ _ _ _ _ _ _ E1
             (immediates_from_NoDup layout 0)) with (k := k) (ci := ci);
    [do 3 f_equal; lia| |exact Hk].
  intros j Hj. apply list_elem_of_fmap in Hj as ([i' c'] & -> & Hin).
  rewrite length_replicate.
  apply immediates_from_lookup in Hin as (k' & -> & Hk').
  apply lookup_lt_Some in Hk'. cbn. lia.
Qed.

Lemma subw_sizes_within_extent_sample :
  py_sum [23; 1] <= extent Vertical 24 80 /\
  length [23; 1] = length sample_layout /\
  (forall k i ci, immediates_from 0 sample_layout !! k = Some (i, ci) ->
     let share :=
       (extent Vertical 24 80 - taken_by [23; 1] (immediates_from 0 sample_layout) k)
       / (Z.of_nat (length sample_layout) - Z.of_nat k) in
     [23; 1] !! i =
       Some (spec_alloc (cfg_max sample_W sample_cfg Vertical ci)
                        (requested sample_W Vertical ci share) share)) /\
  (forall ci, ci ∈ leaves (Sub sample_layout) ->
     exists g, sample_store !! ci = Some g /\ inside 0 0 24 80 g).
Proof.
  apply (subw_sizes_within_extent sample_W sample_cfg sample_layout 0 0 24 80
           Vertical ∅ sample_store [23; 1]).
  - lia.
  - lia.
  - vm_compute. reflexivity.
Defined.

(** In the sample layout the two sub-layouts of the row are handed 40 and
    41 columns; the first is measured as 39 columns wide (one less than
    its pad, as [_subw_layout_size] subtracts one from lines and columns
    alike), so the second starts at column 39. *)
Example sample_row_geometry :
  sample_store !! 1%nat =
    Some {| g_top := 0; g_left := 0; g_height := 23; g_width := 40 |} /\
  sample_store !! 3%nat =
    Some {| g_top := 0; g_left := 39; g_height := 5; g_width := 41 |} /\
  _subw_layout_size sample_store [Sub [Win 1%nat]] DWidth = Some 39.
Proof. vm_compute. repeat split. Qed.

(** C1: on two sub-layouts side by side in a rectangle of 81 columns the
    sizes given to the children exceed the extent.  [_subw] returns; the
    first child is offered 81 / 2 = 40 columns and its pad has 40, but
    [_subw_layout_size] measures it as 39, taking one off the columns as it
    does off the lines, although [_subw_init] makes a pad one longer only in
    lines; so the second child is offered 81 - 39 = 42 columns from column
    39 on.  The children hold 40 + 42 = 82 columns and both cover column 39,
    while [sizes] records 39 and 41.  The measure of the height is right. *)
Theorem subw_row_children_exceed_extent :
  _subw greedy_W sample_cfg row_layout 0 0 10 81 Horizontal ∅ =
    Some (row_store, [39; 41]) /\
  row_store !! 0%nat =
    Some {| g_top := 0; g_left := 0; g_height := 10; g_width := 40 |} /\
  row_store !! 1%nat =
    Some {| g_top := 0; g_left := 39; g_height := 10; g_width := 42 |} /\
  (exists g0 g1,
     row_store !! 0%nat = Some g0 /\ row_store !! 1%nat = Some g1 /\
     extent Horizontal 10 81 < g_width g0 + g_width g1 /\
     g_left g1 < g_left g0 + g_width g0) /\
  _subw_layout_size row_store [Win 0%nat] DWidth = Some 39 /\
  _subw_layout_size row_store [Win 0%nat] DHeight = Some 10.
Proof.
  assert (Hrun : _subw greedy_W sample_cfg row_layout 0 0 10 81 Horizontal ∅ =
                   Some (row_store, [39; 41])) by (vm_compute; reflexivity).
  assert (H0 : row_store !! 0%nat =
                 Some {| g_top := 0; g_left := 0; g_height := 10;
                         g_width := 40 |}) by (vm_compute; reflexivity).
  assert (H1 : row_store !! 1%nat =
                 Some {| g_top := 0; g_left := 39; g_height := 10;
                         g_width := 42 |}) by (vm_compute; reflexivity).
  split; [exact Hrun|]. split; [exact H0|]. split; [exact H1|].
  split.
  - eexists _, _. split; [exact H0|]. split; [exact H1|].
    cbn [g_width g_left extent]. lia.
  - split; vm_compute; reflexivity.
Qed.

(** ** Laying out twice *)

Lemma subw_init_uniform ci top left h w st st' :
  _subw_init ci top left h w st = Some st' ->
  exists g, forall st0,
    _subw_init ci top left h w st0 = Some ({[ ci := g ]} ∪ st0).
Proof.
  unfold _subw_init. destruct (newpad_ok (h + 1) w); [|discriminate].
  intros _. eexists. intros st0. by rewrite insert_union_singleton_l.
Qed.

Lemma init_immediates_uniform o top left h w sizes imms :
  forall st st',
    init_immediates o top left h w sizes imms st = Some st' ->
    exists Wr : gmap nat Geom,
      dom Wr = list_to_set (snd <$> imms) /\
      forall st0,
        init_immediates o top left h w sizes imms st0 = Some (Wr ∪ st0).
Proof.
  induction imms as [|[i0 c0] tl IH]; intros st st' H.
  - exists ∅. split; [by rewrite dom_empty_L|].
    intros st0. cbn. by rewrite (left_id_L ∅ (∪)).
  - cbn [init_immediates] in H.
    assert (Hone : exists g, forall st0,
              (match o with
               | Horizontal =>
                   _subw_init c0 top (left + py_sum (take i0 sizes)) h
                              (default 0 (sizes !! i0)) st0
               | Vertical =>
                   _subw_init c0 (top + py_sum (take i0 sizes)) left
                              (default 0 (sizes !! i0)) w st0
               end) = Some ({[ c0 := g ]} ∪ st0)).
    { destruct o;
        (destruct (_subw_init c0 _ _ _ _ st) as [st1|] eqn:E; [|discriminate]);
        apply subw_init_uniform in E; exact E. }
    destruct Hone as [g Hone]. rewrite (Hone st) in H.
    apply IH in H as (Wr & Hdom & Hall).
    exists (Wr ∪ {[ c0 := g ]}). split.
    + rewrite dom_union_L, dom_singleton_L, Hdom.
      cbn [fmap list_fmap snd list_to_set]. set_solver.
    + intros st0. cbn [init_immediates]. rewrite (Hone st0), Hall.
      by rewrite (assoc_L (∪)).
Qed.

Lemma init_floats_uniform W cfg sh sw fs :
  forall st st',
    init_floats W cfg fs sh sw st = Some st' ->
    exists Wr : gmap nat Geom,
      forall st0, init_floats W cfg fs sh sw st0 = Some (Wr ∪ st0).
Proof.
  induction fs as [|f tl IH]; intros st st' H.
  - exists ∅. intros st0. cbn. by rewrite (left_id_L ∅ (∪)).
  - cbn [init_floats] in H.
    destruct (float_geom W cfg f sh sw) as [g|] eqn:Eg; [|discriminate].
    destruct (_subw_init f _ _ _ _ st) as [st1|] eqn:E; [|discriminate].
    apply subw_init_uniform in E as [g' Hone].
    apply IH in H as (Wr & Hall).
    exists (Wr ∪ {[ f := g' ]}). intros st0.
    cbn [init_floats]. rewrite Eg, (Hone st0), Hall. by rewrite (assoc_L (∪)).
Qed.

Section SecondLoopUniform.

Variable rec : Layout -> Z -> Z -> Z -> Z -> Orientation -> gmap nat Geom ->
               option (gmap nat Geom * list Z).
Variables (top left h w : Z) (o : Orientation).

Lemma measure_over (Wr st st0 : gmap nat Geom) dim (c : Layout) :
  dom Wr = leaves c ->
  layout_size_item (Wr ∪ st) dim c = layout_size_item (Wr ∪ st0) dim c.
Proof.
  intros Hdom. apply layout_size_item_agree. intros ci Hci.
  rewrite <- Hdom in Hci. apply elem_of_dom in Hci.
  by rewrite !lookup_union_l'.
Qed.

Lemma cmplx_loop_uniform items :
  forall i used units sizes st used' sizes' st',
    Forall (child_uniform rec) items ->
    cmplx_loop rec top left h w o items i used units sizes st
      = Some (used', sizes', st') ->
    exists Wr : gmap nat Geom,
      dom Wr = sub_leaves items /\
      forall st0,
        cmplx_loop rec top left h w o items i used units sizes st0
          = Some (used', sizes', Wr ∪ st0).
Proof.
  induction items as [|x tl IH];
    intros i used units sizes st used' sizes' st' HF H.
  - cbn in H. injection H as <- <- <-. exists ∅.
    split; [by rewrite dom_empty_L|]. intros st0. cbn.
    by rewrite (left_id_L ∅ (∪)).
  - apply Forall_cons in HF as [Hx HF]. destruct x as [ci|sub].
    + cbn [cmplx_loop sub_leaves] in *.
      exact (IH (S i) used units sizes st used' sizes' st' HF H).
    + cbn [cmplx_loop sub_leaves] in *.
      destruct o.
      * destruct (rec _ _ _ _ _ _ _) as [[st1 szs]|] eqn:Er; [|discriminate].
        destruct (Hx _ _ _ _ _ _ _ _ Er) as (Wr1 & Hdom1 & Hall1).
        assert (st1 = Wr1 ∪ st) as ->.
        { specialize (Hall1 st). rewrite Er in Hall1. by injection Hall1. }
        destruct (layout_size_item (Wr1 ∪ st) DWidth (Sub sub)) as [sz|] eqn:Em;
          [|discriminate].
        apply (IH _ _ _ _ _ _ _ _ HF) in H as (Wr2 & Hdom2 & Hall2).
        exists (Wr2 ∪ Wr1). split.
        -- rewrite dom_union_L, Hdom1, Hdom2. set_solver.
        -- intros st0. rewrite Hall1.
           rewrite <- (measure_over Wr1 st st0 DWidth (Sub sub) Hdom1), Em.
           rewrite Hall2. by rewrite (assoc_L (∪)).
      * destruct (rec _ _ _ _ _ _ _) as [[st1 szs]|] eqn:Er; [|discriminate].
        destruct (Hx _ _ _ _ _ _ _ _ Er) as (Wr1 & Hdom1 & Hall1).
        assert (st1 = Wr1 ∪ st) as ->.
        { specialize (Hall1 st). rewrite Er in Hall1. by injection Hall1. }
        destruct (layout_size_item (Wr1 ∪ st) DHeight (Sub sub)) as [sz|] eqn:Em;
          [|discriminate].
        apply (IH _ _ _ _ _ _ _ _ HF) in H as (Wr2 & Hdom2 & Hall2).
        exists (Wr2 ∪ Wr1). split.
        -- rewrite dom_union_L, Hdom1, Hdom2. set_solver.
        -- intros st0. rewrite Hall1.
           rewrite <- (measure_over Wr1 st st0 DHeight (Sub sub) Hdom1), Em.
           rewrite Hall2. by rewrite (assoc_L (∪)).
Qed.

End SecondLoopUniform.

Lemma subw_item_uniform W cfg (n : Layout) : child_uniform (subw_item W cfg) n.
Proof.
  induction n as [ci|layout IH] using Layout_ind';
    intros top left h w o st st' sz H; [discriminate|].
  apply subw_item_phases in H as (used1 & sizes1 & used2 & st2 & E1 & E2 & E3).
  apply (cmplx_loop_uniform _ _ _ _ _ _ _ _ _ _ _ _ _ _ _ IH) in E2
    as (Wr2 & Hdom2 & Hall2).
  apply init_immediates_uniform in E3 as (Wr3 & Hdom3 & Hall3).
  exists (Wr3 ∪ Wr2). split.
  - rewrite dom_union_L, Hdom2, Hdom3, immediates_from_ids. by rewrite leaves_sub.
  - intros st0. rewrite subw_item_sub. cbv zeta. rewrite E1, Hall2, Hall3.
    by rewrite (assoc_L (∪)).
Qed.

Lemma union_twice (A B p : gmap nat Geom) :
  B ∪ (A ∪ (B ∪ (A ∪ p))) = B ∪ (A ∪ p).
Proof.
  apply map_eq. intros i. rewrite !lookup_union.
  destruct (A !! i), (B !! i), (p !! i); reflexivity.
Qed.

(** C8: with the windows, the options, the size requests and the screen
    size unchanged, running the layout generation on the screen it has
    just produced gives that same screen again: every window keeps its top,
    left, height and width. *)
Theorem relayout_idempotent (W : nat -> Widget) (cfg : Config)
    (s s1 : Screen) :
  subwindows W cfg s = Some s1 ->
  subwindows W cfg s1 = Some s1.
Proof.
  intros H.
  pose proof (subwindows_frame _ _ _ _ H) as (Hl & Hws & Hfs & Hh & Hw & Hm & Hc).
  apply subwindows_inv in H as (ib & l & st & sz & st' & Efl & Esw & Efs & Hs1).
  destruct (subw_item_uniform W cfg (Sub l) _ _ _ _ _ _ _ _ Esw) as (Wr & _ & Hall).
  destruct (init_floats_uniform W cfg _ _ _ _ _ Efs) as (Wf & Hallf).
  assert (st = Wr ∪ pads s) as ->.
  { specialize (Hall (pads s)). unfold _subw in Esw. rewrite Esw in Hall.
    by injection Hall. }
  assert (st' = Wf ∪ (Wr ∪ pads s)) as ->.
  { specialize (Hallf (Wr ∪ pads s)). rewrite Efs in Hallf. by injection Hallf. }
  assert (Hp : pads s1 = Wf ∪ (Wr ∪ pads s)).
  { rewrite Hs1. unfold _focus. destruct (_ && _); reflexivity. }
  unfold subwindows.
  change (layout (set_focused None s1)) with (layout s1).
  change (windows (set_focused None s1)) with (windows s1).
  rewrite Hl, Hws, Efl.
  change (height (set_input_box ib (set_focused None s1))) with (height s1).
  change (width (set_input_box ib (set_focused None s1))) with (width s1).
  change (pads (set_input_box ib (set_focused None s1))) with (pads s1).
  change (floats (set_input_box ib (set_focused None s1))) with (floats s1).
  rewrite Hh, Hw, Hfs. unfold _subw. rewrite Hall, Hallf, Hp, union_twice.
  f_equal. rewrite Hs1 at 2.
  assert (Hfo : focus_order s1 = focus_order s)
    by (unfold focus_order; by rewrite Hws, Hfs).
  unfold _focus.
  change (focus_order (set_pads _ (set_input_box ib (set_focused None s1))))
    with (focus_order s1).
  change (focus_order (set_pads _ (set_input_box ib (set_focused None s))))
    with (focus_order s).
  rewrite Hfo.
  assert (Heq : set_pads (Wf ∪ (Wr ∪ pads s)) (set_input_box ib (set_focused None s1))
              = set_pads (Wf ∪ (Wr ∪ pads s)) (set_input_box ib (set_focused None s))).
  { unfold set_pads, set_input_box, set_focused. cbn.
    by rewrite Hl, Hws, Hfs, Hh, Hw, Hm, Hc. }
  rewrite Heq. reflexivity.
Qed.

Lemma relayout_idempotent_sample :
  subwindows sample_W sample_cfg sample_screen_after = Some sample_screen_after.
Proof.
  apply (relayout_idempotent sample_W sample_cfg sample_screen).
  vm_compute. reflexivity.
Defined.

(** ** The layout [fill_layout] builds *)

Lemma aligns0_lookup (k : string) :
  aligns0 !! k = if decide (k ∈ align_keys) then Some [] else None.
Proof.
  unfold aligns0. rewrite !lookup_insert, lookup_empty.
  repeat case_decide; subst; try reflexivity;
    exfalso; unfold align_keys in *;
    repeat match goal with
           | H : _ ∈ _ :: _ |- _ => apply elem_of_cons in H as [H|H]; [congruence|]
           | H : _ ∈ [] |- _ => by apply elem_of_nil in H
           | H : _ ∉ _ |- _ => apply H; clear H
           end;
    repeat first [ by apply list_elem_of_here | apply list_elem_of_further ].
Qed.

Section FillLayout.

Variable W : nat -> Widget.
Variable cfg : Config.

Lemma fill_aligns_lookup ws :
  forall aligns aligns',
    fill_aligns W cfg ws aligns = Some aligns' ->
    forall k, aligns' !! k =
              (fun l => l ++ items_of W cfg k ws) <$> aligns !! k.
Proof.
  induction ws as [|w tl IH]; intros aligns aligns' H k.
  - cbn in H. injection H as <-. unfold items_of. cbn.
    destruct (aligns !! k); cbn; [by rewrite app_nil_r|reflexivity].
  - cbn [fill_aligns] in H. fold (align_of W cfg w) in H.
    destruct (align_of W cfg w) as [a|] eqn:Ea; [|discriminate].
    destruct (aligns !! a) as [l|] eqn:El; [|discriminate].
    fold (item_of W w) in H. rewrite (IH _ _ H k). unfold items_of.
    destruct (decide (a = k)) as [->|Hne].
    + rewrite filter_cons_True by exact Ea.
      rewrite lookup_insert_eq, El, fmap_cons. cbn [fmap option_fmap option_map].
      by rewrite <- app_assoc.
    + rewrite filter_cons_False by congruence.
      rewrite lookup_insert_ne by exact Hne. reflexivity.
Qed.

Lemma fill_aligns_None ws :
  forall aligns,
    fill_aligns W cfg ws aligns = None <->
    exists w, w ∈ ws /\
      forall a, align_of W cfg w = Some a -> aligns !! a = None.
Proof.
  induction ws as [|w tl IH]; intros aligns.
  - cbn. split; [discriminate|]. intros (w & Hw & _). by apply elem_of_nil in Hw.
  - cbn [fill_aligns]. fold (align_of W cfg w).
    destruct (align_of W cfg w) as [a|] eqn:Ea.
    + destruct (aligns !! a) as [l|] eqn:El.
      * rewrite IH. split.
        -- intros (w' & Hw' & Hbad). exists w'. split; [by right|].
           intros a' Ha'. specialize (Hbad a' Ha').
           destruct (decide (a = a')) as [->|Hne].
           ++ by rewrite lookup_insert_eq in Hbad.
           ++ by rewrite lookup_insert_ne in Hbad.
        -- intros (w' & Hw' & Hbad). apply elem_of_cons in Hw' as [->|Hw'].
           ++ specialize (Hbad a Ea). congruence.
           ++ exists w'. split; [exact Hw'|]. intros a' Ha'.
              specialize (Hbad a' Ha').
              destruct (decide (a = a')) as [->|Hne]; [congruence|].
              by rewrite lookup_insert_ne.
      * split; [|reflexivity]. intros _. exists w. split; [by left|].
        intros a' Ha'. congruence.
    + split; [|reflexivity]. intros _. exists w. split; [by left|].
      intros a' Ha'. congruence.
Qed.


Lemma fill_aligns0_None ws :
  fill_aligns W cfg ws aligns0 = None <->
  exists w, w ∈ ws /\ forall a, align_of W cfg w = Some a -> a ∉ align_keys.
Proof.
  rewrite fill_aligns_None. split; intros (w & Hw & Hbad); exists w;
    (split; [exact Hw|]); intros a Ha; specialize (Hbad a Ha);
    rewrite aligns0_lookup in *; case_decide; congruence.
Qed.

Lemma fill_layout_Some_inv (lay : string) (ws : list nat)
    (ib : option nat) (l : list Layout) :
  fill_layout W cfg lay ws = Some (ib, l) ->
  ib = head (filter (fun w => is_input (W w) = true) ws) /\
  l = (if String.eqb lay "hstack" then Win <$> ws
       else if String.eqb lay "vstack" then [Sub (Win <$> ws)]
       else items_of W cfg "top" ws ++
            [Sub (items_of W cfg "left" ws ++ items_of W cfg "neutral" ws ++
                  items_of W cfg "right" ws)] ++
            items_of W cfg "bottom" ws).
Proof.
  unfold fill_layout.
  destruct (String.eqb lay "hstack"); [intros H; injection H as <- <-; by split|].
  destruct (String.eqb lay "vstack"); [intros H; injection H as <- <-; by split|].
  destruct (fill_aligns W cfg ws aligns0) as [aligns|] eqn:E; [|discriminate].
  intros H. injection H as <- <-. split; [reflexivity|].
  pose proof (fill_aligns_lookup _ _ _ E) as Hl.
  rewrite !Hl, !aligns0_lookup. reflexivity.
Qed.

Lemma leaves_sub_app (l1 l2 : list Layout) :
  leaves (Sub (l1 ++ l2)) = leaves (Sub l1) ∪ leaves (Sub l2).
Proof.
  cbn [leaves]. induction l1 as [|x l1 IH]; cbn [app foldr].
  - by rewrite (left_id_L ∅ (∪)).
  - rewrite IH. by rewrite (assoc_L (∪)).
Qed.

Lemma leaves_wins (ws : list nat) : leaves (Sub (Win <$> ws)) = list_to_set ws.
Proof.
  cbn [leaves]. induction ws as [|w tl IH]; [reflexivity|].
  cbn [fmap list_fmap foldr leaves list_to_set]. by rewrite <- IH.
Qed.

Lemma leaves_item_of w : leaves (item_of W w) = {[ w ]}.
Proof.
  unfold item_of. destruct (String.eqb _ _); cbn; [|reflexivity]. set_solver.
Qed.

Lemma leaves_items (ws : list nat) :
  leaves (Sub (item_of W <$> ws)) = list_to_set ws.
Proof.
  cbn [leaves]. induction ws as [|w tl IH]; [reflexivity|].
  cbn [fmap list_fmap foldr list_to_set]. rewrite leaves_item_of.
  by rewrite <- IH.
Qed.

Lemma fill_layout_leaves (lay : string) (ws : list nat)
    (ib : option nat) (l : list Layout) :
  fill_layout W cfg lay ws = Some (ib, l) ->
  leaves (Sub l) = list_to_set ws.
Proof.
  intros H.
  assert (Hnot : String.eqb lay "hstack" = false ->
                 String.eqb lay "vstack" = false ->
                 fill_aligns W cfg ws aligns0 <> None).
  { intros E1 E2 E3. unfold fill_layout in H. by rewrite E1, E2, E3 in H. }
  rewrite fill_aligns0_None in Hnot.
  apply fill_layout_Some_inv in H as [_ ->].
  destruct (String.eqb lay "hstack"); [apply leaves_wins|].
  destruct (String.eqb lay "vstack").
  { cbn [leaves foldr]. rewrite (right_id_L ∅ (∪)). apply leaves_wins. }
  specialize (Hnot eq_refl eq_refl).
  rewrite !leaves_sub_app.
  change (leaves (Sub [Sub ?x])) with (leaves (Sub x) ∪ ∅).
  rewrite !leaves_sub_app. unfold items_of. rewrite !leaves_items.
  apply set_eq. intros w.
  rewrite !elem_of_union, !elem_of_list_to_set, !list_elem_of_filter.
  split; [set_solver|]. intros Hw.
  destruct (align_of W cfg w) as [a|] eqn:Ea.
  - destruct (decide (a ∈ align_keys)) as [Hin|Hnin].
    + unfold align_keys in Hin.
      repeat (apply elem_of_cons in Hin as [->|Hin]; [tauto|]).
      by apply elem_of_nil in Hin.
    + exfalso. apply Hnot.
      exists w. split; [exact Hw|]. intros a' Ha'. congruence.
  - exfalso. apply Hnot.
    exists w. split; [exact Hw|]. intros a' Ha'. congruence.
Qed.

End FillLayout.

(** X1: [fill_layout] raises exactly when the layout is neither "hstack"
    nor "vstack" and some window has an align option that is unset or not
    one of top, bottom, left, right, neutral. *)
Theorem fill_layout_fails_iff (W : nat -> Widget) (cfg : Config)
    (lay : string) (ws : list nat) :
  fill_layout W cfg lay ws = None <->
  lay <> "hstack"%string /\ lay <> "vstack"%string /\
  exists w, w ∈ ws /\ forall a, align_of W cfg w = Some a -> a ∉ align_keys.
Proof.
  unfold fill_layout.
  destruct (String.eqb_spec lay "hstack") as [->|Hh].
  { split; [discriminate|]. intros [H _]. congruence. }
  destruct (String.eqb_spec lay "vstack") as [->|Hv].
  { split; [discriminate|]. intros (_ & H & _). congruence. }
  destruct (fill_aligns W cfg ws aligns0) as [aligns|] eqn:E.
  - split; [discriminate|]. intros (_ & _ & Hbad).
    apply fill_aligns0_None in Hbad. congruence.
  - split; [|reflexivity]. intros _. split; [exact Hh|]. split; [exact Hv|].
    by apply fill_aligns0_None.
Qed.

(** X2: the layout [fill_layout] returns.  "hstack" gives the windows as
    they are and "vstack" the one list of them; any other layout gives
    the top windows, then one list holding the left, neutral and right
    windows, then the bottom windows, each group in the order of the
    windows, with the taglist two lists deeper; and the input box is the
    first window that is an input. *)
Theorem fill_layout_shape (W : nat -> Widget) (cfg : Config)
    (lay : string) (ws : list nat) (ib : option nat) (l : list Layout) :
  fill_layout W cfg lay ws = Some (ib, l) ->
  ib = head (filter (fun w => is_input (W w) = true) ws) /\
  l = (if String.eqb lay "hstack" then Win <$> ws
       else if String.eqb lay "vstack" then [Sub (Win <$> ws)]
       else items_of W cfg "top" ws ++
            [Sub (items_of W cfg "left" ws ++ items_of W cfg "neutral" ws ++
                  items_of W cfg "right" ws)] ++
            items_of W cfg "bottom" ws).
Proof.
  unfold fill_layout.
  destruct (String.eqb lay "hstack"); [intros H; injection H as <- <-; by split|].
  destruct (String.eqb lay "vstack"); [intros H; injection H as <- <-; by split|].
  destruct (fill_aligns W cfg ws aligns0) as [aligns|] eqn:E; [|discriminate].
  intros H. injection H as <- <-. split; [reflexivity|].
  pose proof (fill_aligns_lookup _ _ _ _ _ E) as Hl.
  rewrite !Hl, !aligns0_lookup. reflexivity.
Qed.

(** ** A list without windows among the sub-layouts *)

Lemma subw_item_nil W cfg top left h w o st :
  subw_item W cfg (Sub []) top left h w o st = Some (st, []).
Proof. reflexivity. Qed.

Lemma cmplx_loop_empty_sub W cfg top left h w o items :
  Sub [] ∈ items ->
  forall i used units sizes st,
    cmplx_loop (subw_item W cfg) top left h w o items i used units sizes st = None.
Proof.
  induction items as [|x tl IH]; intros Hin i used units sizes st.
  - by apply elem_of_nil in Hin.
  - destruct x as [ci|sub].
    + apply elem_of_cons in Hin as [Heq|Hin]; [discriminate|].
      cbn [cmplx_loop]. by apply IH.
    + cbn [cmplx_loop]. destruct sub as [|y sub].
      * destruct o; rewrite subw_item_nil; reflexivity.
      * apply elem_of_cons in Hin as [Heq|Hin]; [discriminate|].
        destruct o;
          (destruct (subw_item W cfg _ _ _ _ _ _ _) as [[st1 ?]|]; [|reflexivity]);
          (destruct (layout_size_item st1 _ _); [|reflexivity]); by apply IH.
Qed.

Lemma subw_empty_sub W cfg layout top left h w o st :
  Sub [] ∈ layout -> _subw W cfg layout top left h w o st = None.
Proof.
  intros Hin. unfold _subw. rewrite subw_item_sub. cbv zeta.
  destruct (size_immediates _ _ _ _ _ _ _ _) as [used1 sizes1].
  by rewrite cmplx_loop_empty_sub.
Qed.

Lemma items_of_nil W cfg k ws :
  (forall w, w ∈ ws -> align_of W cfg w <> Some k) -> items_of W cfg k ws = [].
Proof.
  intros H. unfold items_of. induction ws as [|w tl IH]; [reflexivity|].
  rewrite filter_cons_False by (apply H; by left).
  apply IH. intros w' Hw'. apply H. by right.
Qed.

(** X3: a list without any window in the middle row makes the layout
    generation raise.  When the layout is not "hstack" and there is no tiled
    window, or when under the default layout no tiled window is aligned left,
    neutral or right, [subwindows] raises (the maximum of an empty list of
    sizes is asked for); so does [die_callback] for the only tiled window. *)
Theorem subwindows_without_row_raises (W : nat -> Widget) (cfg : Config)
    (s : Screen) :
  layout s <> "hstack"%string ->
  (windows s = [] -> subwindows W cfg s = None) /\
  (layout s <> "vstack"%string ->
   (forall w, w ∈ windows s ->
      align_of W cfg w <> Some "left"%string /\
      align_of W cfg w <> Some "neutral"%string /\
      align_of W cfg w <> Some "right"%string) ->
   subwindows W cfg s = None) /\
  (forall window, windows s = [window] -> die_callback W cfg window s = None).
Proof.
  intros Hh.
  assert (Hrow : forall s0 : Screen,
            layout s0 <> "hstack"%string -> layout s0 <> "vstack"%string ->
            (forall w, w ∈ windows s0 ->
               align_of W cfg w <> Some "left"%string /\
               align_of W cfg w <> Some "neutral"%string /\
               align_of W cfg w <> Some "right"%string) ->
            subwindows W cfg s0 = None).
  { intros s0 Hh0 Hv0 Hal. unfold subwindows.
    destruct (fill_layout _ _ _ _) as [[ib l]|] eqn:E; [|reflexivity].
    apply fill_layout_Some_inv in E as [_ ->].
    cbn [layout windows set_focused] in *.
    destruct (String.eqb_spec (layout s0) "hstack"); [contradiction|].
    destruct (String.eqb_spec (layout s0) "vstack"); [contradiction|].
    rewrite (items_of_nil W cfg "left"), (items_of_nil W cfg "neutral"),
      (items_of_nil W cfg "right") by (intros w Hw; by apply Hal).
    rewrite subw_empty_sub; [reflexivity|].
    apply elem_of_app. right. by left. }
  assert (Hempty : forall s0 : Screen,
            layout s0 <> "hstack"%string -> windows s0 = [] ->
            subwindows W cfg s0 = None).
  { intros s0 Hh0 Hw0.
    destruct (decide (layout s0 = "vstack"%string)) as [Hv|Hv].
    - unfold subwindows.
      destruct (fill_layout _ _ _ _) as [[ib l]|] eqn:E; [|reflexivity].
      apply fill_layout_Some_inv in E as [_ ->].
      cbn [layout windows set_focused] in *. rewrite Hv, Hw0.
      change (String.eqb "vstack" "hstack") with false.
      change (String.eqb "vstack" "vstack") with true. cbn iota.
      rewrite subw_empty_sub; [reflexivity|]. by left.
    - apply Hrow; [exact Hh0|exact Hv|]. rewrite Hw0. intros w Hw.
      by apply elem_of_nil in Hw. }
  split; [by apply Hempty|]. split; [by apply Hrow|].
  intros window Hw. unfold die_callback.
  rewrite Hempty; [reflexivity|exact Hh|].
  cbn [windows set_windows]. rewrite Hw. cbn.
  by rewrite decide_False by (intros H; by apply H).
Qed.

Lemma subwindows_without_row_raises_sample :
  (windows empty_screen = [] -> subwindows sample_W sample_cfg empty_screen = None) /\
  (layout empty_screen <> "vstack"%string ->
   (forall w, w ∈ windows empty_screen ->
      align_of sample_W sample_cfg w <> Some "left"%string /\
      align_of sample_W sample_cfg w <> Some "neutral"%string /\
      align_of sample_W sample_cfg w <> Some "right"%string) ->
   subwindows sample_W sample_cfg empty_screen = None) /\
  (forall window, windows empty_screen = [window] ->
     die_callback sample_W sample_cfg window empty_screen = None).
Proof.
  apply (subwindows_without_row_raises sample_W sample_cfg empty_screen).
  vm_compute. discriminate.
Defined.

(** ** What a layout generation writes *)

Lemma init_floats_ok W cfg sh sw fs :
  forall st st',
    init_floats W cfg fs sh sw st = Some st' ->
    forall f, f ∈ fs ->
      exists g, float_geom W cfg f sh sw = Some g /\
                newpad_ok (g_height g + 1) (g_width g) = true.
Proof.
  induction fs as [|x tl IH]; intros st st' H f Hf.
  - by apply elem_of_nil in Hf.
  - cbn [init_floats] in H.
    destruct (float_geom W cfg x sh sw) as [g|] eqn:Eg; [|discriminate].
    destruct (_subw_init x _ _ _ _ st) as [st1|] eqn:Ei; [|discriminate].
    apply elem_of_cons in Hf as [->|Hf]; [|by eapply IH].
    apply subw_init_inv in Ei as [Hok _]. by exists g.
Qed.

Lemma float_geom_inside W cfg f sh sw g :
  float_geom W cfg f sh sw = Some g ->
  newpad_ok (g_height g + 1) (g_width g) = true ->
  inside 0 0 sh sw g.
Proof.
  unfold float_geom. destruct (get_opt_str cfg _) as [align|]; [|discriminate].
  intros H Hok. injection H as <-. cbn in *.
  apply andb_true_iff in Hok as [Ha Hb].
  apply Z.ltb_lt in Ha. apply Z.ltb_lt in Hb.
  pose proof (size_along_le W cfg Vertical f sh) as Hh.
  pose proof (size_along_le W cfg Horizontal f sw) as Hw.
  cbn [size_along] in Hh, Hw. unfold inside. cbn.
  destruct (startswith "bottom" align), (endswith "right" align); lia.
Qed.

Lemma focus_frame_pads idx s : pads (_focus idx s) = pads s.
Proof. unfold _focus. destruct (_ && _); reflexivity. Qed.

Lemma subwindows_pads_frame (W : nat -> Widget) (cfg : Config)
    (s s' : Screen) :
  subwindows W cfg s = Some s' ->
  forall ci, ci ∉ windows s -> ci ∉ floats s -> pads s' !! ci = pads s !! ci.
Proof.
  intros H ci Hw Hf.
  apply subwindows_inv in H as (ib & l & st & sz & st' & Efl & Esw & Efs & ->).
  rewrite focus_frame_pads. cbn [pads set_pads].
  apply fill_layout_leaves in Efl.
  destruct (subw_item_uniform W cfg (Sub l) _ _ _ _ _ _ _ _ Esw)
    as (Wr & Hdom & Hall).
  assert (st = Wr ∪ pads s) as ->.
  { specialize (Hall (pads s)). unfold _subw in Esw. rewrite Esw in Hall.
    by injection Hall. }
  destruct (init_floats_lookup _ _ _ _ _ _ _ Efs) as [_ Hout].
  rewrite (Hout ci Hf). apply lookup_union_r.
  apply not_elem_of_dom. rewrite Hdom, Efl. by rewrite elem_of_list_to_set.
Qed.

(** X4: a layout generation that returns has given every tiled and every
    floating window a pad, and has left alone the pad of any window that is
    neither tiled nor floating (a window that died keeps the pad it had). *)
Theorem subwindows_writes_the_windows (W : nat -> Widget) (cfg : Config)
    (s s' : Screen) :
  subwindows W cfg s = Some s' ->
  (forall ci, ci ∈ windows s ++ floats s -> is_Some (pads s' !! ci)) /\
  (forall ci, ci ∉ windows s -> ci ∉ floats s -> pads s' !! ci = pads s !! ci).
Proof.
  intros H.
  apply subwindows_inv in H as (ib & l & st & sz & st' & Efl & Esw & Efs & ->).
  assert (Hp : pads (_focus 0 (set_pads st' (set_input_box ib
                 (set_focused None s)))) = st').
  { unfold _focus. destruct (_ && _); reflexivity. }
  rewrite Hp.
  apply fill_layout_leaves in Efl.
  destruct (subw_item_uniform W cfg (Sub l) _ _ _ _ _ _ _ _ Esw)
    as (Wr & Hdom & Hall).
  assert (st = Wr ∪ pads s) as ->.
  { specialize (Hall (pads s)). unfold _subw in Esw. rewrite Esw in Hall.
    by injection Hall. }
  destruct (init_floats_lookup _ _ _ _ _ _ _ Efs) as [Hin Hout].
  split.
  - intros ci Hci. destruct (decide (ci ∈ floats s)) as [Hf|Hf].
    + destruct (Hin ci Hf) as (g & _ & Hg). by exists g.
    + rewrite (Hout ci Hf). apply elem_of_app in Hci as [Hci|Hci]; [|contradiction].
      rewrite lookup_union_l'; apply elem_of_dom; rewrite Hdom, Efl;
        by apply elem_of_list_to_set.
  - intros ci Hw Hf. rewrite (Hout ci Hf). apply lookup_union_r.
    apply not_elem_of_dom. rewrite Hdom, Efl. by rewrite elem_of_list_to_set.
Qed.

(** X5: on a screen whose height and width are not negative, a layout
    generation that returns has placed every tiled and every floating
    window inside the screen, with a pad [curses.newpad] accepts. *)
Theorem subwindows_inside_screen (W : nat -> Widget) (cfg : Config)
    (s s' : Screen) :
  0 <= height s -> 0 <= width s ->
  subwindows W cfg s = Some s' ->
  forall ci, ci ∈ windows s ++ floats s ->
    exists g, pads s' !! ci = Some g /\ inside 0 0 (height s) (width s) g.
Proof.
  intros Hh Hw H ci Hci.
  apply subwindows_inv in H as (ib & l & st & sz & st' & Efl & Esw & Efs & ->).
  assert (Hp : pads (_focus 0 (set_pads st' (set_input_box ib
                 (set_focused None s)))) = st').
  { unfold _focus. destruct (_ && _); reflexivity. }
  rewrite Hp.
  apply fill_layout_leaves in Efl.
  destruct (subw_item_ok W cfg (Sub l) _ _ _ _ _ _ _ _ Hh Hw Esw) as [[Hin _] _].
  destruct (init_floats_lookup _ _ _ _ _ _ _ Efs) as [Hfin Hfout].
  destruct (decide (ci ∈ floats s)) as [Hf|Hf].
  - destruct (Hfin ci Hf) as (g & Hg & Hlook).
    destruct (init_floats_ok _ _ _ _ _ _ _ Efs ci Hf) as (g' & Hg' & Hok).
    assert (g' = g) as -> by congruence.
    exists g. split; [exact Hlook|]. by apply (float_geom_inside W cfg ci).
  - rewrite (Hfout ci Hf). apply Hin. rewrite Efl.
    apply elem_of_list_to_set. apply elem_of_app in Hci as [Hci|Hci]; [exact Hci|].
    contradiction.
Qed.

Lemma subwindows_inside_screen_sample :
  exists g, pads sample_screen_after !! 1%nat = Some g /\
            inside 0 0 (height sample_screen) (width sample_screen) g.
Proof.
  apply (subwindows_inside_screen sample_W sample_cfg sample_screen
           sample_screen_after).
  - vm_compute. discriminate.
  - vm_compute. discriminate.
  - reflexivity.
  - apply (bool_decide_unpack _). vm_compute. exact I.
Defined.

Lemma subwindows_writes_the_windows_sample :
  (forall ci, ci ∈ windows sample_screen ++ floats sample_screen ->
     is_Some (pads sample_screen_after !! ci)) /\
  (forall ci, ci ∉ windows sample_screen -> ci ∉ floats sample_screen ->
     pads sample_screen_after !! ci = pads sample_screen !! ci).
Proof.
  apply (subwindows_writes_the_windows sample_W sample_cfg sample_screen
           sample_screen_after). reflexivity.
Defined.

Lemma fill_layout_shape_sample :
  Some 0%nat = head (filter (fun w => is_input (sample_W w) = true) [0; 1]%nat) /\
  [Sub [Sub [Sub [Win 1%nat]]]; Win 0%nat] =
    (if String.eqb "default" "hstack" then Win <$> [0; 1]%nat
     else if String.eqb "default" "vstack" then [Sub (Win <$> [0; 1]%nat)]
     else items_of sample_W sample_cfg "top" [0; 1]%nat ++
          [Sub (items_of sample_W sample_cfg "left" [0; 1]%nat ++
                items_of sample_W sample_cfg "neutral" [0; 1]%nat ++
                items_of sample_W sample_cfg "right" [0; 1]%nat)] ++
          items_of sample_W sample_cfg "bottom" [0; 1]%nat).
Proof.
  apply (fill_layout_shape sample_W sample_cfg "default" [0; 1]%nat).
  vm_compute. reflexivity.
Defined.

(** ** The focus order and the order of the windows *)

Lemma focus_in_range (s : Screen) (idx : Z) :
  - Z.of_nat (length (focus_order s)) < idx < Z.of_nat (length (focus_order s)) ->
  focused (_focus idx s) = py_index (focus_order s) idx.
Proof.
  intros [H1 H2]. unfold _focus.
  replace ((-1 * Z.of_nat (length (focus_order s)) <? idx)
           && (idx <? Z.of_nat (length (focus_order s)))) with true
    by (symmetry; apply andb_true_iff; split; apply Z.ltb_lt; lia).
  reflexivity.
Qed.

(** X6: what index the focus command takes in terms of the order the
    windows were added in (tiled windows, then floats): index 0 is the
    window added last, index [idx >= 0] the one [idx] places before it, and
    a negative index counts from the window added first, -1 being that
    window. *)
Theorem focus_index_in_window_order (s : Screen) (idx : Z) :
  let ws := windows s ++ floats s in
  let L := Z.of_nat (length ws) in
  (0 <= idx < L -> focused (_focus idx s) = ws !! Z.to_nat (L - 1 - idx)) /\
  (- L < idx < 0 -> focused (_focus idx s) = ws !! Z.to_nat (- idx - 1)).
Proof.
  cbv zeta.
  assert (Hlen : length (focus_order s) = length (windows s ++ floats s))
    by apply length_reverse.
  split; intros Hr.
  - rewrite focus_in_range by (rewrite Hlen; lia).
    unfold py_index. rewrite Hlen.
    replace ((0 <=? idx) && (idx <? Z.of_nat (length (windows s ++ floats s))))
      with true
      by (symmetry; apply andb_true_iff; split; [apply Z.leb_le|apply Z.ltb_lt]; lia).
    unfold focus_order. rewrite reverse_lookup by lia. f_equal. lia.
  - rewrite focus_in_range by (rewrite Hlen; lia).
    unfold py_index. rewrite Hlen.
    replace (0 <=? idx) with false by (symmetry; apply Z.leb_gt; lia).
    cbn [andb].
    replace ((- Z.of_nat (length (windows s ++ floats s)) <=? idx) && (idx <? 0))
      with true
      by (symmetry; apply andb_true_iff; split; [apply Z.leb_le|apply Z.ltb_lt]; lia).
    unfold focus_order. rewrite reverse_lookup by lia. f_equal. lia.
Qed.

Lemma head_focus_order_elem (s : Screen) (p : nat) :
  head (focus_order s) = Some p -> p ∈ windows s ++ floats s.
Proof.
  unfold focus_order. rewrite head_reverse. apply last_Some_elem_of.
Qed.

(** X7: the focus never points outside the windows: if the focused window
    is one of the tiled or floating windows (or none), it still is after any
    focus command, whatever the index. *)
Theorem focus_stays_among_windows (s : Screen) (idx : Z) :
  (forall p, focused s = Some p -> p ∈ windows s ++ floats s) ->
  (forall p, focused (_focus idx s) = Some p ->
     p ∈ windows (_focus idx s) ++ floats (_focus idx s)).
Proof.
  intros Hv p. unfold _focus.
  destruct ((-1 * Z.of_nat (length (focus_order s)) <? idx)
            && (idx <? Z.of_nat (length (focus_order s)))) eqn:E; [|apply Hv].
  cbn [focused windows floats set_focused]. unfold py_index.
  intros H.
  assert (Hin : p ∈ focus_order s).
  { repeat match type of H with
           | (if ?b then _ else _) = _ => destruct b
           end;
      first [discriminate H | exact (list_elem_of_lookup_2 _ _ _ H)]. }
  unfold focus_order in Hin. exact (proj1 (elem_of_reverse _ _) Hin).
Qed.

Lemma focus_stays_among_windows_sample :
  0%nat ∈ windows (_focus (-1) sample_screen_after)
          ++ floats (_focus (-1) sample_screen_after).
Proof.
  apply (focus_stays_among_windows sample_screen_after (-1)).
  - intros p Hp. vm_compute in Hp. injection Hp as <-.
    apply (bool_decide_unpack _). vm_compute. exact I.
  - reflexivity.
Defined.

(** ** Removing and adding a window *)

Lemma refresh_frame s :
  windows (refresh s) = windows s /\ floats (refresh s) = floats s /\
  focused (refresh s) = focused s /\ pads (refresh s) = pads s.
Proof. repeat split. Qed.

Lemma focus_frame idx s :
  windows (_focus idx s) = windows s /\ floats (_focus idx s) = floats s /\
  pads (_focus idx s) = pads s.
Proof. unfold _focus. destruct (_ && _); repeat split. Qed.

(** X8: [die_callback], when it returns, has removed the window from the
    tiled and from the floating windows and kept the others in their order;
    the focus is on the first window of the new focus order and never on the
    removed window; and the removed window still has the pad it had. *)
Theorem die_callback_removes_window (W : nat -> Widget) (cfg : Config)
    (window : nat) (s s' : Screen) :
  die_callback W cfg window s = Some s' ->
  windows s' = filter (fun w => w <> window) (windows s) /\
  floats s' = filter (fun w => w <> window) (floats s) /\
  (window ∉ windows s' ++ floats s') /\
  focused s' = head (focus_order s') /\
  focused s' <> Some window /\
  pads s' !! window = pads s !! window.
Proof.
  unfold die_callback.
  destruct (subwindows W cfg _) as [s1|] eqn:E; [|discriminate].
  intros H. injection H as <-.
  pose proof (subwindows_frame _ _ _ _ E) as (_ & Hw & Hf & _).
  pose proof (subwindows_focused _ _ _ _ E) as [Hhead _].
  pose proof (subwindows_pads_frame _ _ _ _ E) as Hpads.
  cbn [windows floats pads set_windows] in Hw, Hf, Hpads.
  set (s2 := if decide (focused s1 = Some window) then _focus 0 s1 else s1).
  assert (Hs2 : windows s2 = windows s1 /\ floats s2 = floats s1 /\
                pads s2 = pads s1 /\ focused s2 = head (focus_order s2)).
  { unfold s2. destruct (decide (focused s1 = Some window)).
    - destruct (focus_frame 0 s1) as (H1 & H2 & H3).
      repeat split; try assumption.
      rewrite focus_order_focus. by apply focus_0_keeps_head.
    - repeat split. exact Hhead. }
  destruct Hs2 as (Hw2 & Hf2 & Hp2 & Hh2).
  destruct (refresh_frame s2) as (Hw3 & Hf3 & Hfo3 & Hp3).
  assert (Hnot : window ∉ windows (refresh s2) ++ floats (refresh s2)).
  { rewrite Hw3, Hf3, Hw2, Hf2, Hw, Hf. intros Hin.
    apply elem_of_app in Hin as [Hin|Hin];
      apply list_elem_of_filter in Hin as [Hne _]; by apply Hne. }
  split; [by rewrite Hw3, Hw2, Hw|]. split; [by rewrite Hf3, Hf2, Hf|].
  split; [exact Hnot|].
  assert (Hh3 : focused (refresh s2) = head (focus_order (refresh s2))).
  { rewrite Hfo3, focus_order_refresh. exact Hh2. }
  split; [exact Hh3|]. split.
  - intros Hfw. rewrite Hh3 in Hfw. apply head_focus_order_elem in Hfw.
    contradiction.
  - rewrite Hp3, Hp2. apply Hpads.
    + intros Hin. apply list_elem_of_filter in Hin as [Hne _]. by apply Hne.
    + intros Hin. apply list_elem_of_filter in Hin as [Hne _]. by apply Hne.
Qed.

(** X9: [add_window_callback], when it returns, has put the new window
    last among the floats when its float option is set and last among the
    tiled windows otherwise.  A new float has the focus; a new tiled window
    has the focus only when there is no float, otherwise the focus is on
    the float added last. *)
Theorem add_window_callback_focus (W : nat -> Widget) (cfg : Config)
    (ci : nat) (s s' : Screen) :
  add_window_callback W cfg ci s = Some s' ->
  (get_opt_bool cfg (get_opt_name (W ci) +:+ ".float") = true ->
   windows s' = windows s /\ floats s' = floats s ++ [ci] /\
   focused s' = Some ci) /\
  (get_opt_bool cfg (get_opt_name (W ci) +:+ ".float") = false ->
   windows s' = windows s ++ [ci] /\ floats s' = floats s /\
   focused s' = Some (default ci (last (floats s)))).
Proof.
  unfold add_window_callback.
  destruct (subwindows W cfg _) as [s1|] eqn:E; [|discriminate].
  intros H. injection H as <-.
  pose proof (subwindows_frame _ _ _ _ E) as (_ & Hw & Hf & _).
  pose proof (subwindows_focused _ _ _ _ E) as [Hhead _].
  destruct (focus_frame 0 s1) as (Hw1 & Hf1 & _).
  assert (Hfoc : focused (refresh (_focus 0 s1)) = last (windows s1 ++ floats s1)).
  { change (focused (refresh (_focus 0 s1))) with (focused (_focus 0 s1)).
    rewrite (focus_0_keeps_head _ Hhead). unfold focus_order.
    apply head_reverse. }
  change (windows (refresh (_focus 0 s1))) with (windows (_focus 0 s1)).
  change (floats (refresh (_focus 0 s1))) with (floats (_focus 0 s1)).
  rewrite Hfoc, Hw1, Hf1, Hw, Hf.
  split; intros Hflt; rewrite Hflt; cbn [windows floats set_windows].
  - split; [reflexivity|]. split; [reflexivity|].
    by rewrite (assoc_L (++)), last_snoc.
  - split; [reflexivity|]. split; [reflexivity|].
    rewrite last_app. destruct (last (floats s)); [reflexivity|].
    by rewrite last_snoc.
Qed.

Lemma die_callback_removes_window_sample :
  windows tiled_one_gone = filter (fun w => w <> 0%nat) (windows sample_screen) /\
  floats tiled_one_gone = filter (fun w => w <> 0%nat) (floats sample_screen) /\
  (0%nat ∉ windows tiled_one_gone ++ floats tiled_one_gone) /\
  focused tiled_one_gone = head (focus_order tiled_one_gone) /\
  focused tiled_one_gone <> Some 0%nat /\
  pads tiled_one_gone !! 0%nat = pads sample_screen !! 0%nat.
Proof.
  apply (die_callback_removes_window sample_W sample_cfg 0%nat sample_screen
           tiled_one_gone).
  vm_compute. reflexivity.
Defined.

Lemma add_window_callback_focus_sample :
  (get_opt_bool sample_cfg (get_opt_name (sample_W 5%nat) +:+ ".float") = true ->
   windows float_added = windows sample_screen /\
   floats float_added = floats sample_screen ++ [5%nat] /\
   focused float_added = Some 5%nat) /\
  (get_opt_bool sample_cfg (get_opt_name (sample_W 5%nat) +:+ ".float") = false ->
   windows float_added = windows sample_screen ++ [5%nat] /\
   floats float_added = floats sample_screen /\
   focused float_added = Some (default 5%nat (last (floats sample_screen)))).
Proof.
  apply (add_window_callback_focus sample_W sample_cfg 5%nat sample_screen
           float_added).
  vm_compute. reflexivity.
Defined.

(** ** A flat list of windows that take what they are offered *)

Section Greedy.

Variable W : nat -> Widget.
Variable cfg : Config.

Lemma greedy_size_along o ci a :
  greedy W cfg o ci -> size_along W cfg o ci a = a.
Proof.
  intros [Hc Hr]. rewrite size_along_spec. unfold spec_alloc.
  specialize (Hr a). destruct Hc as [-> | ->]; cbn; lia.
Qed.

Lemma size_immediates_sum o ext imms :
  forall used units sizes used' sizes',
    size_immediates W cfg o ext imms used units sizes = (used', sizes') ->
    NoDup (fst <$> imms) ->
    (forall i, i ∈ fst <$> imms -> sizes !! i = Some 0) ->
    used = py_sum sizes ->
    used' = py_sum sizes'.
Proof.
  induction imms as [|[i0 c0] tl IH];
    intros used units sizes used' sizes' H Hnd Hz Hsum.
  - cbn in H. by injection H as <- <-.
  - cbn [size_immediates] in H. cbn [fmap list_fmap fst] in Hnd, Hz.
    apply NoDup_cons in Hnd as [Hni Hnd].
    apply IH in H; [exact H|exact Hnd| |].
    + intros i Hi. rewrite list_lookup_insert_ne; [apply Hz; by right|].
      intros ->. contradiction.
    + rewrite (py_sum_insert sizes i0 0) by (apply Hz; by left). lia.
Qed.

Lemma size_immediates_greedy o ext imms :
  forall used units sizes used' sizes',
    size_immediates W cfg o ext imms used units sizes = (used', sizes') ->
    imms <> [] ->
    units = Z.of_nat (length imms) ->
    (forall i ci, (i, ci) ∈ imms -> greedy W cfg o ci) ->
    used' = ext.
Proof.
  induction imms as [|[i0 c0] tl IH];
    intros used units sizes used' sizes' H Hne Hu Hg; [contradiction|].
  cbn [size_immediates] in H.
  rewrite (greedy_size_along o c0) in H by (apply (Hg i0); by left).
  destruct tl as [|x tl].
  - cbn in H, Hu. injection H as <- _. subst units. rewrite Z.div_1_r. lia.
  - apply IH in H; [exact H|discriminate| |].
    + cbn [length] in *. lia.
    + intros i ci Hin. apply (Hg i). by right.
Qed.

Lemma immediates_from_wins ws : forall i0,
  immediates_from i0 (Win <$> ws) = zip (seq i0 (length ws)) ws.
Proof.
  induction ws as [|w tl IH]; intros i0; [reflexivity|].
  cbn. by rewrite IH.
Qed.

Lemma cmplx_loop_flat rec top left h w o ws :
  forall i used units sizes st,
    cmplx_loop rec top left h w o (Win <$> ws) i used units sizes st
      = Some (used, sizes, st).
Proof.
  induction ws as [|x tl IH]; intros i used units sizes st; [reflexivity|].
  cbn. apply IH.
Qed.

End Greedy.

(** X10: a flat list of windows that all take what they are offered along
    the axis uses the extent up exactly: when [_subw] returns for such a
    list (not empty), the sizes it gave sum to the extent, the first
    window having got the extent divided by the number of windows, rounded
    down. *)
Theorem greedy_windows_fill_extent (W : nat -> Widget) (cfg : Config)
    (ws : list nat) (top left height width : Z) (o : Orientation)
    (st st' : gmap nat Geom) (sizes : list Z) :
  ws <> [] ->
  (forall ci, ci ∈ ws -> greedy W cfg o ci) ->
  _subw W cfg (Win <$> ws) top left height width o st = Some (st', sizes) ->
  py_sum sizes = extent o height width /\
  sizes !! 0%nat = Some (extent o height width / Z.of_nat (length ws)).
Proof.
  intros Hne Hg H. unfold _subw in H.
  apply subw_item_phases in H as (used1 & sizes1 & used2 & st2 & E1 & E2 & _).
  rewrite cmplx_loop_flat in E2. injection E2 as <- <- <-.
  rewrite length_fmap in E1.
  pose proof (immediates_from_NoDup (Win <$> ws) 0) as Hnd.
  assert (Hin : forall i ci, (i, ci) ∈ immediates_from 0 (Win <$> ws) ->
                  ci ∈ ws /\ (i < length ws)%nat).
  { intros i ci Hi. apply immediates_from_lookup in Hi as (k & -> & Hk).
    rewrite list_lookup_fmap in Hk.
    destruct (ws !! k) as [c|] eqn:Ek; [|discriminate].
    cbn in Hk. injection Hk as ->. split; [by apply list_elem_of_lookup_2 in Ek|].
    apply lookup_lt_Some in Ek. lia. }
  assert (Hlen : length (immediates_from 0 (Win <$> ws)) = length ws).
  { rewrite immediates_from_wins, length_zip, length_seq. lia. }
  split.
  - rewrite <- (size_immediates_sum W cfg _ _ _ _ _ _ _ _ E1 Hnd).
    + apply (size_immediates_greedy W cfg _ _ _ _ _ _ _ _ E1).
      * intros Heq. rewrite Heq in Hlen. cbn in Hlen.
        destruct ws; [contradiction|discriminate].
      * by rewrite Hlen.
      * intros i ci Hi. apply Hg. by apply (Hin i ci).
    + intros i Hi. apply list_elem_of_fmap in Hi as ([i' ci] & -> & Hi).
      apply lookup_replicate. split; [reflexivity|]. by apply (Hin i' ci).
    + by rewrite py_sum_replicate_0.
  - destruct ws as [|c tl]; [contradiction|].
    rewrite (size_immediates_shares W cfg _ _ _ _ _ _ _ _ E1 Hnd)
      with (k := 0%nat) (ci := c); [| |reflexivity].
    + rewrite greedy_size_along by (apply Hg; by left).
      unfold taken_by. rewrite take_0. cbn [fmap list_fmap py_sum foldr].
      do 2 f_equal; cbn [length]; lia.
    + intros i Hi. apply list_elem_of_fmap in Hi as ([i' ci] & -> & Hi).
      rewrite length_replicate. by apply (Hin i' ci).
Qed.

Lemma greedy_windows_fill_extent_sample :
  py_sum [3; 3; 4] = extent Vertical 10 80 /\
  [3; 3; 4] !! 0%nat = Some (extent Vertical 10 80 / Z.of_nat (length [0; 1; 2]%nat)).
Proof.
  apply (greedy_windows_fill_extent greedy_W sample_cfg [0; 1; 2]%nat 0 0 10 80
           Vertical ∅ greedy_store [3; 3; 4]).
  - discriminate.
  - intros ci _. split; [left; reflexivity|]. intros a. cbn. lia.
  - vm_compute. reflexivity.
Defined.

(** ** Ticks and passes *)

(** X11: after [n] ticks the countdown is [n] lower, the release signal
    is set if it was set before or if there was a tick and the countdown has
    come to zero or below, and nothing else has changed.  So after a sync
    (countdown 5, signal cleared by the pass) the first four ticks leave the
    render thread asleep and the fifth wakes it. *)
Theorem ticks_count_down (n : nat) (g : Gui) :
  sync_timer (Nat.iter n tick g) = sync_timer g - Z.of_nat n /\
  do_gui (Nat.iter n tick g) =
    (do_gui g || ((0 <? Z.of_nat n) && (sync_timer g - Z.of_nat n <=? 0))) /\
  alive (Nat.iter n tick g) = alive g /\ vars (Nat.iter n tick g) = vars g /\
  screen (Nat.iter n tick g) = screen g /\ events (Nat.iter n tick g) = events g.
Proof.
  induction n as [|n (IHt & IHd & IHa & IHv & IHs & IHe)].
  - cbn. rewrite Z.sub_0_r, orb_false_r. repeat split.
  - change (Nat.iter (S n) tick g) with (tick (Nat.iter n tick g)).
    set (g1 := Nat.iter n tick g) in *.
    assert (Hu : tick g1 =
              if sync_timer g1 - 1 <=? 0
              then release_gui (with_timer (sync_timer g1 - 1) g1)
              else with_timer (sync_timer g1 - 1) g1)
      by (destruct g1; reflexivity).
    assert (Ht : sync_timer (tick g1) = sync_timer g1 - 1)
      by (rewrite Hu; destruct (sync_timer g1 - 1 <=? 0); reflexivity).
    assert (Hd : do_gui (tick g1) = (do_gui g1 || (sync_timer g1 - 1 <=? 0)))
      by (rewrite Hu; destruct (sync_timer g1 - 1 <=? 0); cbn;
          [by rewrite orb_true_r|by rewrite orb_false_r]).
    assert (Hrest : alive (tick g1) = alive g1 /\ vars (tick g1) = vars g1 /\
                    screen (tick g1) = screen g1 /\ events (tick g1) = events g1)
      by (rewrite Hu; destruct (sync_timer g1 - 1 <=? 0); repeat split).
    destruct Hrest as (Ha & Hv & Hs & He).
    rewrite Ht, Hd, Ha, Hv, Hs, He, IHt, IHd, IHa, IHv, IHs, IHe.
    split; [lia|]. split; [|repeat split].
    destruct (do_gui g); [reflexivity|]. cbn [orb].
    replace (0 <? Z.of_nat (S n)) with true by (symmetry; apply Z.ltb_lt; lia).
    cbn [andb].
    destruct (Z.ltb_spec 0 (Z.of_nat n)); cbn [andb orb];
      destruct (Z.leb_spec (sync_timer g - Z.of_nat n) 0);
      destruct (Z.leb_spec (sync_timer g - Z.of_nat n - 1) 0);
      destruct (Z.leb_spec (sync_timer g - Z.of_nat (S n)) 0);
      try reflexivity; lia.
Qed.

(** X12: a pass that completes leaves nothing pending: the three flags
    are false, the release signal is cleared and the countdown is above
    zero; a pass run right after it takes and releases the lock and does
    nothing else. *)
Theorem pass_leaves_nothing_pending (W : nat -> Widget) (cfg : Config)
    (g g' : Gui) :
  run_gui_pass W cfg g = Some (Looping g') ->
  vars g' = {| v_resize := false; v_refresh := false; v_redraw := false |} /\
  do_gui g' = false /\ 0 < sync_timer g' /\ alive g' = true /\
  run_gui_pass W cfg g' =
    Some (Looping (emit EReleaseWrite (emit EAcquireWrite g'))).
Proof.
  intros Hp.
  apply run_gui_pass_looping in Hp as (g1 & Hl & -> & Hal).
  apply run_gui_locked_events in Hl as (_ & Htm & Ha & Hd & Hv & _).
  cbn [sync_timer alive do_gui emit with_do_gui] in Htm, Ha, Hd.
  assert (Hpos : 0 < sync_timer g1).
  { rewrite Htm. destruct (Z.leb_spec (sync_timer g) 0); lia. }
  rewrite Hal in Ha.
  destruct g1 as [al tm dg vs sc ev]. cbn in Hpos, Ha, Hd, Hv.
  subst al dg vs.
  split; [reflexivity|]. split; [reflexivity|]. split; [exact Hpos|].
  split; [reflexivity|].
  unfold run_gui_pass, run_gui_locked, sync_step, resize_step, refresh_step,
    redraw_step. cbn.
  replace (tm <=? 0) with false by (symmetry; apply Z.leb_gt; lia).
  reflexivity.
Qed.

Lemma pass_leaves_nothing_pending_sample :
  vars sample_gui_after =
    {| v_resize := false; v_refresh := false; v_redraw := false |} /\
  do_gui sample_gui_after = false /\ 0 < sync_timer sample_gui_after /\
  alive sample_gui_after = true /\
  run_gui_pass sample_W sample_cfg sample_gui_after =
    Some (Looping (emit EReleaseWrite (emit EAcquireWrite sample_gui_after))).
Proof.
  apply (pass_leaves_nothing_pending sample_W sample_cfg sample_gui).
  vm_compute. reflexivity.
Defined.

(** X13: after a window change signal the next pass of a live GUI
    resizes: when it completes, the screen has the height and width the
    terminal now reports and the same tiled and floating windows, the
    resize is in the trace of the pass, and no flag is left set. *)
Theorem winch_pass_adopts_terminal_size (W : nat -> Widget) (cfg : Config)
    (g g' : Gui) :
  run_gui_pass W cfg (winch g) = Some (Looping g') ->
  height (screen g') = fst (stdscr_maxyx (screen g)) /\
  width (screen g') = snd (stdscr_maxyx (screen g)) /\
  windows (screen g') = windows (screen g) /\
  floats (screen g') = floats (screen g) /\
  In EResize (events g') /\
  vars g' = {| v_resize := false; v_refresh := false; v_redraw := false |}.
Proof.
  intros Hp.
  apply run_gui_pass_looping in Hp as (g1 & Hl & -> & _).
  apply run_gui_locked_events in Hl as (Hev & _ & _ & _ & Hv & Hs).
  destruct (Hs ltac:(destruct g as [? ? ? [? ? ?] ? ?]; reflexivity))
    as (s1 & Hres & Hsc).
  unfold resize, _resize in Hres.
  destruct (subwindows W cfg _) as [s2|] eqn:Hsub; [|discriminate].
  injection Hres as <-.
  apply subwindows_frame in Hsub as (_ & Hw & Hf & Hh & Hwd & _).
  cbn [screen emit]. rewrite Hsc.
  change (height (refresh s2)) with (height s2).
  change (width (refresh s2)) with (width s2).
  change (windows (refresh s2)) with (windows s2).
  change (floats (refresh s2)) with (floats s2).
  rewrite Hh, Hwd, Hw, Hf.
  repeat split; try reflexivity; try exact Hv.
  cbn [events emit]. rewrite Hev. unfold steps_of.
  replace (get_var needs_resize (vars (emit EAcquireWrite
             (with_do_gui false (winch g))))) with true
    by (destruct g as [? ? ? [? ? ?] ? ?]; reflexivity).
  apply in_or_app. left. apply in_or_app. right.
  destruct (_ <=? 0); cbn; tauto.
Qed.

Lemma winch_pass_adopts_terminal_size_sample :
  height (screen winch_gui_after) = fst (stdscr_maxyx (screen sample_gui)) /\
  width (screen winch_gui_after) = snd (stdscr_maxyx (screen sample_gui)) /\
  windows (screen winch_gui_after) = windows (screen sample_gui) /\
  floats (screen winch_gui_after) = floats (screen sample_gui) /\
  In EResize (events winch_gui_after) /\
  vars winch_gui_after =
    {| v_resize := false; v_refresh := false; v_redraw := false |}.
Proof.
  apply (winch_pass_adopts_terminal_size sample_W sample_cfg sample_gui).
  vm_compute. reflexivity.
Defined.

(** ** A thread that dies inside its locked part *)

Section Hazards.

Variable W : nat -> Widget.
Variable cfg : Config.
Variable cmd_execute : string -> Gui -> option Gui.

Lemma held_inv_step sy sy' :
  held_inv sy -> step W cfg cmd_execute sy sy' -> held_inv sy'.
Proof.
  intros [Hc Hr] Hstep.
  inversion Hstep as [sy0 lk Hpc0 Hacq| | | | | | | |sy0 lk Hpc0 Hal Hacq| |];
    subst; split; cbn; intros Hpc;
    unfold acquire_write, release_write in *;
    try (destruct Hpc; congruence); auto.
  - destruct (lock_writer sy); congruence.
  - specialize (Hr Hpc). rewrite Hr in Hacq. discriminate.
  - specialize (Hr Hpc). specialize (Hc ltac:(auto)). congruence.
  - specialize (Hc Hpc). rewrite Hc in Hacq. discriminate.
  - destruct (lock_writer sy); congruence.
  - specialize (Hc Hpc). specialize (Hr ltac:(auto)). congruence.
Qed.

Lemma held_inv_reachable sy :
  reachable W cfg cmd_execute sy -> held_inv sy.
Proof.
  induction 1 as [sy (Hl & Hc & Hr)|sy sy' _ IH Hstep].
  - split; intros [H|H]; congruence.
  - eapply held_inv_step; eassumption.
Qed.

Lemma tick_frame g :
  alive (tick g) = alive g /\ screen (tick g) = screen g /\
  events (tick g) = events g.
Proof.
  unfold tick. destruct (sync_timer _ <=? 0); repeat split.
Qed.

End Hazards.

(** X14: [issue_cmd] releases the lock only after [cmd_execute] has
    returned.  Once a command has raised, whatever the threads do next the
    command thread stays dead and stays the holder of the lock, the render
    thread never gets into a pass, and the only things the GUI still does
    are those of the exit path. *)
Theorem raised_command_blocks_render (W : nat -> Widget) (cfg : Config)
    (cmd_execute : string -> Gui -> option Gui) (sy sy' : Sys) :
  reachable W cfg cmd_execute sy ->
  cmd_pc sy = CmdDead ->
  rtc (step W cfg cmd_execute) sy sy' ->
  cmd_pc sy' = CmdDead /\ lock_writer sy' = Some TCmd /\
  render_pc sy' <> RInPass /\
  (forall e, e ∈ events (gui sy') ->
     e ∈ events (gui sy) \/ e = ERemoveHandler \/ e = EExit).
Proof.
  intros Hreach Hdead Hrtc.
  apply held_inv_reachable in Hreach.
  enough (Hgen : forall E : list Event,
            held_inv sy -> cmd_pc sy = CmdDead ->
            (forall e, e ∈ events (gui sy) ->
               e ∈ E \/ e = ERemoveHandler \/ e = EExit) ->
            cmd_pc sy' = CmdDead /\ lock_writer sy' = Some TCmd /\
            render_pc sy' <> RInPass /\
            (forall e, e ∈ events (gui sy') ->
               e ∈ E \/ e = ERemoveHandler \/ e = EExit))
    by (apply Hgen; auto).
  clear Hreach Hdead.
  induction Hrtc as [sy|sy sy1 sy' Hstep _ IH]; intros E Hinv Hdead Hev.
  - destruct Hinv as [Hc Hr]. specialize (Hc (or_intror Hdead)).
    repeat split; try assumption.
    intros Hp. specialize (Hr (or_introl Hp)). congruence.
  - pose proof (held_inv_step _ _ _ _ _ Hinv Hstep) as Hinv1.
    destruct Hinv as [Hc Hr]. specialize (Hc (or_intror Hdead)).
    apply (IH E Hinv1);
      inversion Hstep as [sy0 lk Hpc0 Hacq| | | | | | | |sy0 lk Hpc0 Hal Hacq| |];
      subst; cbn [cmd_pc gui]; try congruence; try assumption.
    all: try (unfold acquire_write in Hacq; rewrite Hc in Hacq; discriminate).
    all: try (match goal with
              | Hp : render_pc _ = RInPass |- _ =>
                  specialize (Hr (or_introl Hp)); congruence
              end).
    all: try (match goal with
              | |- context [tick ?g] =>
                  destruct (tick_frame g) as (_ & _ & ->); exact Hev
              end).
    all: try exact Hev.
    unfold run_gui_exit. cbn [events emit with_screen].
    intros e He. rewrite <- app_assoc in He.
    apply elem_of_app in He as [He|He]; [by apply Hev|].
    apply elem_of_cons in He as [->|He]; [tauto|].
    apply elem_of_cons in He as [->|He]; [tauto|].
    by apply elem_of_nil in He.
Qed.

Lemma raised_command_blocks_render_sample :
  cmd_pc cmd_dead_later = CmdDead /\ lock_writer cmd_dead_later = Some TCmd /\
  render_pc cmd_dead_later <> RInPass /\
  (forall e, e ∈ events (gui cmd_dead_later) ->
     e ∈ events (gui cmd_dead_sys) \/ e = ERemoveHandler \/ e = EExit).
Proof.
  apply (raised_command_blocks_render sample_W sample_cfg (fun _ _ => None)
           cmd_dead_sys cmd_dead_later).
  - apply reach_step with (sy := cmd_running_sys).
    + apply reach_step with (sy := sample_sys).
      * apply reach_init. repeat split.
      * apply (step_cmd_acquire sample_W sample_cfg (fun _ _ => None)
                 sample_sys (Some TCmd)); reflexivity.
    + apply (step_cmd_raise sample_W sample_cfg (fun _ _ => None)
               cmd_running_sys ""); reflexivity.
  - reflexivity.
  - apply rtc_once.
    apply (step_tick sample_W sample_cfg (fun _ _ => None) cmd_dead_sys).
Defined.

(** X15: [run_gui] releases the lock only at the end of a pass.  Once a
    pass has raised (a resize on a screen that cannot be laid out), whatever
    the threads do next the render thread stays dead and stays the holder
    of the lock, the command thread never gets to execute a command again,
    and the GUI stays alive with the screen and the trace it had: only
    ticks, window change signals and releases of the render thread still
    happen. *)
Theorem raised_pass_blocks_commands (W : nat -> Widget) (cfg : Config)
    (cmd_execute : string -> Gui -> option Gui) (sy sy' : Sys) :
  reachable W cfg cmd_execute sy ->
  render_pc sy = RDead ->
  rtc (step W cfg cmd_execute) sy sy' ->
  render_pc sy' = RDead /\ lock_writer sy' = Some TRender /\
  cmd_pc sy' = CmdIdle /\
  alive (gui sy') = alive (gui sy) /\ screen (gui sy') = screen (gui sy) /\
  events (gui sy') = events (gui sy).
Proof.
  intros Hreach Hdead Hrtc.
  apply held_inv_reachable in Hreach.
  assert (Hidle : cmd_pc sy = CmdIdle).
  { destruct Hreach as [Hc Hr]. specialize (Hr (or_intror Hdead)).
    destruct (cmd_pc sy) eqn:E; [reflexivity| |].
    - specialize (Hc (or_introl eq_refl)). congruence.
    - specialize (Hc (or_intror eq_refl)). congruence. }
  enough (Hgen : forall g0 : Gui,
            held_inv sy -> render_pc sy = RDead -> cmd_pc sy = CmdIdle ->
            alive (gui sy) = alive g0 /\ screen (gui sy) = screen g0 /\
            events (gui sy) = events g0 ->
            render_pc sy' = RDead /\ lock_writer sy' = Some TRender /\
            cmd_pc sy' = CmdIdle /\
            alive (gui sy') = alive g0 /\ screen (gui sy') = screen g0 /\
            events (gui sy') = events g0)
    by (apply Hgen; auto).
  clear Hreach Hdead Hidle.
  induction Hrtc as [sy|sy sy1 sy' Hstep _ IH];
    intros g0 Hinv Hdead Hidle Hfr.
  - destruct Hinv as [_ Hr]. specialize (Hr (or_intror Hdead)). tauto.
  - pose proof (held_inv_step _ _ _ _ _ Hinv Hstep) as Hinv1.
    destruct Hinv as [_ Hr]. specialize (Hr (or_intror Hdead)).
    apply (IH g0 Hinv1);
      inversion Hstep as [sy0 lk Hpc0 Hacq| | | | | | | |sy0 lk Hpc0 Hal Hacq| |];
      subst; cbn [cmd_pc render_pc gui]; try congruence; try assumption.
    all: try (unfold acquire_write in Hacq; rewrite Hr in Hacq; discriminate).
    all: try (match goal with
              | |- context [tick ?g] =>
                  destruct (tick_frame g) as (-> & -> & ->); exact Hfr
              end).
Qed.

Lemma raised_pass_blocks_commands_sample :
  render_pc render_dead_later = RDead /\
  lock_writer render_dead_later = Some TRender /\
  cmd_pc render_dead_later = CmdIdle /\
  alive (gui render_dead_later) = alive (gui render_dead_sys) /\
  screen (gui render_dead_later) = screen (gui render_dead_sys) /\
  events (gui render_dead_later) = events (gui render_dead_sys).
Proof.
  apply (raised_pass_blocks_commands sample_W sample_cfg (fun _ g => Some g)
           render_dead_sys render_dead_later).
  - apply reach_step with
      (sy := {| lock_writer := Some TRender; cmd_pc := CmdIdle;
                render_pc := RInPass;
                gui := emit EAcquireWrite (with_do_gui false stuck_gui) |}).
    + apply reach_step with
        (sy := {| lock_writer := None; cmd_pc := CmdIdle; render_pc := RAwake;
                  gui := with_do_gui false stuck_gui |}).
      * apply reach_step with
          (sy := {| lock_writer := None; cmd_pc := CmdIdle;
                    render_pc := RWaiting; gui := stuck_gui |}).
        -- apply reach_init. repeat split.
        -- apply (step_render_wake sample_W sample_cfg (fun _ g => Some g)
                     {| lock_writer := None; cmd_pc := CmdIdle;
                        render_pc := RWaiting; gui := stuck_gui |});
             reflexivity.
      * apply (step_render_acquire sample_W sample_cfg (fun _ g => Some g)
                 {| lock_writer := None; cmd_pc := CmdIdle;
                    render_pc := RAwake;
                    gui := with_do_gui false stuck_gui |} (Some TRender));
          reflexivity.
    + apply (step_render_raise sample_W sample_cfg (fun _ g => Some g)
               {| lock_writer := Some TRender; cmd_pc := CmdIdle;
                  render_pc := RInPass;
                  gui := emit EAcquireWrite (with_do_gui false stuck_gui) |});
        [reflexivity|vm_compute; reflexivity].
  - reflexivity.
  - apply rtc_once.
    apply (step_tick sample_W sample_cfg (fun _ g => Some g) render_dead_sys).
Defined.

(** ** The input thread *)

Section InputLemmas.

Context {Box : Type}.
Variable addkey : Z -> Box -> Box * Z.

Lemma chr_key_of r :
  0 <= r -> (r <? 256) = true ->
  chr r = Some (Ascii.ascii_of_N (Z.to_N r)).
Proof.
  intros H0 H1. unfold chr. rewrite H1.
  replace (0 <=? r) with true by (symmetry; apply Z.leb_le; lia).
  reflexivity.
Qed.

Lemma input_thread_key_lock r (i i' : Input Box) :
  input_thread_key Box addkey r i = Some i' ->
  lock_trace i' =
    lock_trace i ++ (if r =? -1 then [LRelease; LSleep; LAcquire] else []).
Proof.
  unfold input_thread_key.
  destruct (r =? -1); [intros [= <-]; reflexivity|].
  rewrite app_nil_r.
  destruct (sub_edit i).
  - destruct (in_box i) as [b|]; [|discriminate].
    destruct (addkey r b) as [b' rc].
    destruct (rc =? 0); intros [= <-]; reflexivity.
  - destruct (r <? 256).
    + destruct (chr r); [|discriminate]. intros [= <-]. reflexivity.
    + intros [= <-]. reflexivity.
Qed.

Lemma input_thread_loop_app rs1 rs2 (i : Input Box) :
  input_thread_loop Box addkey (rs1 ++ rs2) i =
    match input_thread_loop Box addkey rs1 i with
    | Some i1 => input_thread_loop Box addkey rs2 i1
    | None => None
    end.
Proof.
  revert i. induction rs1 as [|r rs1 IH]; intros i; [reflexivity|].
  cbn [app input_thread_loop].
  destruct (input_thread_key Box addkey r i); [apply IH|reflexivity].
Qed.

End InputLemmas.

(** X16: outside an edit, the input thread puts every key it reads on
    the user queue, in the order read, as a character below 256 and as the
    key code otherwise; the empty reads (-1) add nothing, and the edit
    state, the variables and the input box are left alone. *)
Theorem keys_queued_in_order (Box : Type) (addkey : Z -> Box -> Box * Z)
    (rs : list Z) (i : Input Box) :
  sub_edit i = false ->
  (forall r, r ∈ rs -> -1 <= r) ->
  exists i',
    input_thread_loop Box addkey rs i = Some i' /\
    user_queue i' =
      user_queue i ++ (key_of <$> filter (fun r => r <> -1) rs) /\
    sub_edit i' = false /\ input_done i' = input_done i /\
    in_vars i' = in_vars i /\ in_box i' = in_box i.
Proof.
  revert i. induction rs as [|r rs IH]; intros i Hs Hr.
  - exists i. cbn. rewrite app_nil_r. repeat split; assumption.
  - assert (Hr0 : -1 <= r) by (apply Hr; by left).
    assert (Hrs : forall r', r' ∈ rs -> -1 <= r')
      by (intros r' H'; apply Hr; by right).
    cbn [input_thread_loop]. unfold input_thread_key. rewrite Hs.
    destruct (Z.eqb_spec r (-1)) as [->|Hne].
    + destruct (IH (lock_does Box [LRelease; LSleep; LAcquire] i) Hs Hrs)
        as (i' & Hrun & Hq & Hse & Hd & Hv & Hb).
      exists i'. rewrite filter_cons_False by (intros H; by apply H).
      cbn [lock_does user_queue input_done in_vars in_box] in Hq, Hd, Hv, Hb.
      repeat split; assumption.
    + rewrite filter_cons_True by exact Hne. rewrite fmap_cons.
      destruct (r <? 256) eqn:Hlt.
      * rewrite chr_key_of by (lia || assumption).
        assert (Hk : key_of r = KChr (Ascii.ascii_of_N (Z.to_N r)))
          by (unfold key_of; by rewrite Hlt).
        destruct (IH (put Box (KChr (Ascii.ascii_of_N (Z.to_N r))) i) Hs Hrs)
          as (i' & Hrun & Hq & Hse & Hd & Hv & Hb).
        exists i'.
        cbn [put user_queue input_done in_vars in_box] in Hq, Hd, Hv, Hb.
        rewrite <- app_assoc in Hq. rewrite Hk.
        repeat split; assumption.
      * assert (Hk : key_of r = KCode r) by (unfold key_of; by rewrite Hlt).
        destruct (IH (put Box (KCode r) i) Hs Hrs)
          as (i' & Hrun & Hq & Hse & Hd & Hv & Hb).
        exists i'.
        cbn [put user_queue input_done in_vars in_box] in Hq, Hd, Hv, Hb.
        rewrite <- app_assoc in Hq. rewrite Hk.
        repeat split; assumption.
Qed.

Lemma keys_queued_in_order_sample :
  exists i',
    input_thread_loop (list Z) line_addkey [104; -1; 105; 259] sample_input =
      Some i' /\
    user_queue i' =
      user_queue sample_input ++
        (key_of <$> filter (fun r => r <> -1) [104; -1; 105; 259]) /\
    sub_edit i' = false /\ input_done i' = input_done sample_input /\
    in_vars i' = in_vars sample_input /\ in_box i' = in_box sample_input.
Proof.
  apply (keys_queued_in_order (list Z) line_addkey [104; -1; 105; 259]
           sample_input).
  - reflexivity.
  - intros r Hr. repeat (apply elem_of_cons in Hr as [->|Hr]; [lia|]).
    by apply elem_of_nil in Hr.
Defined.

(** X17: the input thread takes the input lock once at its start and
    gives it up only on an empty read, to take it again after the sleep:
    while it handles a key, in an edit or not, it holds the lock. *)
Theorem input_lock_released_on_empty_read_only (Box : Type)
    (addkey : Z -> Box -> Box * Z) (rs : list Z) (i i' : Input Box) :
  input_thread Box addkey rs i = Some i' ->
  lock_trace i' =
    lock_trace i ++ LAcquire ::
      flat_map (fun r => if r =? -1 then [LRelease; LSleep; LAcquire] else [])
               rs.
Proof.
  unfold input_thread.
  change (lock_trace i ++ LAcquire :: ?l) with (lock_trace i ++ [LAcquire] ++ l).
  rewrite app_assoc.
  change (lock_trace i ++ [LAcquire])
    with (lock_trace (lock_does Box [LAcquire] i)).
  generalize (lock_does Box [LAcquire] i). clear i.
  induction rs as [|r rs IH]; intros i.
  - intros [= <-]. cbn. by rewrite app_nil_r.
  - cbn [input_thread_loop flat_map].
    destruct (input_thread_key Box addkey r i) as [i1|] eqn:Hk; [|discriminate].
    intros Hrun. apply IH in Hrun. rewrite Hrun.
    apply input_thread_key_lock in Hk. rewrite Hk.
    by rewrite <- app_assoc.
Qed.

Lemma input_lock_released_on_empty_read_only_sample :
  lock_trace sample_input_after =
    lock_trace sample_input ++
      LAcquire ::
        flat_map (fun r => if r =? -1 then [LRelease; LSleep; LAcquire] else [])
                 [104; -1].
Proof.
  apply (input_lock_released_on_empty_read_only (list Z) line_addkey).
  reflexivity.
Defined.

(** X18: [input_callback] and the input thread together.  After the
    setup of the edit, the keys the thread reads go to the input box and not
    to the user queue; as long as the box asks for more the caller keeps
    waiting; the first key for which [addkey] returns 0 ends the edit, wakes
    the caller and asks for a redraw, and the caller gets the result of the
    box as it is after the prompt and exactly these keys, and resets it. *)
Theorem input_callback_round_trip (Box : Type) (edit : string -> Box -> Box)
    (addkey : Z -> Box -> Box * Z) (result : Box -> string)
    (reset : Box -> Box) (prompt : string) (i : Input Box) (b b' : Box)
    (ks : list Z) (k : Z) :
  in_box i = Some b ->
  (forall r, r ∈ ks ++ [k] -> r <> -1) ->
  unfinished Box addkey ks (edit prompt b) = true ->
  addkey k (feed Box addkey ks (edit prompt b)) = (b', 0) ->
  exists i1 im i2 i3,
    input_callback_setup Box edit prompt i = Some i1 /\
    input_thread_loop Box addkey ks i1 = Some im /\
    input_done im = false /\
    input_thread_loop Box addkey (ks ++ [k]) i1 = Some i2 /\
    input_done i2 = true /\
    input_callback_return Box result reset i2 = Some (result b', i3) /\
    in_box i3 = Some (reset b') /\ sub_edit i3 = false /\
    user_queue i3 = user_queue i /\
    get_var needs_redraw (in_vars i3) = true.
Proof.
  intros Hb Hks Hun Hk.
  assert (Hfeed : forall (ks0 : list Z) (i0 : Input Box) (b0 : Box),
            sub_edit i0 = true -> in_box i0 = Some b0 ->
            (forall r, r ∈ ks0 -> r <> -1) ->
            unfinished Box addkey ks0 b0 = true ->
            input_thread_loop Box addkey ks0 i0 =
              Some {| sub_edit := true; input_done := input_done i0;
                      in_vars := in_vars i0;
                      in_box := Some (feed Box addkey ks0 b0);
                      user_queue := user_queue i0;
                      lock_trace := lock_trace i0 |}).
  { induction ks0 as [|r ks0 IH]; intros i0 b0 Hse Hb0 Hne Hu.
    - destruct i0 as [se dn vs bx q lt]. cbn in *. by subst.
    - cbn [input_thread_loop unfinished feed] in *.
      apply andb_true_iff in Hu as [Hrc Hu].
      unfold input_thread_key. rewrite Hse, Hb0.
      replace (r =? -1) with false
        by (symmetry; apply Z.eqb_neq, Hne; by left).
      destruct (addkey r b0) as [b1 rc]. cbn [fst snd] in *.
      apply negb_true_iff in Hrc. rewrite Hrc.
      rewrite (IH _ b1); [reflexivity|reflexivity|reflexivity| |exact Hu].
      intros r' Hr'. apply Hne. by right. }
  unfold input_callback_setup. rewrite Hb.
  eexists _, _, _, _. split; [reflexivity|].
  assert (Hne : forall r, r ∈ ks -> r <> -1)
    by (intros r Hr; apply Hks, elem_of_app; by left).
  assert (Hkne : k <> -1)
    by (apply Hks, elem_of_app; right; by left).
  split; [apply (Hfeed ks _ (edit prompt b)); (reflexivity || assumption)|].
  split; [reflexivity|].
  rewrite input_thread_loop_app.
  rewrite (Hfeed ks _ (edit prompt b)) by (reflexivity || assumption).
  cbn [input_thread_loop]. unfold input_thread_key.
  cbn [sub_edit in_box].
  replace (k =? -1) with false by (symmetry; by apply Z.eqb_neq).
  rewrite Hk. cbn [Z.eqb].
  split; [reflexivity|]. split; [reflexivity|].
  unfold input_callback_return. cbn [in_box].
  split; [reflexivity|]. cbn.
  destruct (in_vars i). repeat split.
Qed.

Lemma input_callback_round_trip_sample :
  exists i1 im i2 i3,
    input_callback_setup (list Z) line_edit ":" sample_input = Some i1 /\
    input_thread_loop (list Z) line_addkey [113; 117] i1 = Some im /\
    input_done im = false /\
    input_thread_loop (list Z) line_addkey ([113; 117] ++ [10]) i1 =
      Some i2 /\
    input_done i2 = true /\
    input_callback_return (list Z) line_result line_reset i2 =
      Some (line_result [113; 117], i3) /\
    in_box i3 = Some (line_reset [113; 117]) /\ sub_edit i3 = false /\
    user_queue i3 = user_queue sample_input /\
    get_var needs_redraw (in_vars i3) = true.
Proof.
  apply (input_callback_round_trip (list Z) line_edit line_addkey line_result
           line_reset ":" sample_input [] [113; 117] [113; 117] 10).
  - reflexivity.
  - intros r Hr. repeat (apply elem_of_cons in Hr as [->|Hr]; [lia|]).
    by apply elem_of_nil in Hr.
  - reflexivity.
  - reflexivity.
Defined.
